(** * word-generator.js: grant text parser and Word report builder

    A shallow embedding of [src/word-generator.js].  JavaScript strings are
    sequences of UTF-16 code units; the regular expressions of the source are
    kept as syntax trees and run by a backtracking matcher that follows the
    ECMAScript matching rules for the constructs the source uses; operations
    that can throw in JavaScript return a [result]. *)

From Stdlib Require Import String Ascii List NArith Arith Bool Lia.
From Stdlib Require DecimalNat.
Import ListNotations.

Set Implicit Arguments.

(** ** JavaScript strings *)

Definition code := N.
Definition jsstring := list code.

(** An ASCII literal of the source as a sequence of code units. *)
Definition js (s : string) : jsstring := map N_of_ascii (list_ascii_of_string s).

Definition NL : code := 10%N.

(** WhiteSpace and LineTerminator code units of ECMAScript: the set used both
    by [String.prototype.trim] and by the class escape [\s]. *)
Definition isWhiteSpace (c : code) : bool :=
  ((c =? 9) || (c =? 10) || (c =? 11) || (c =? 12) || (c =? 13) || (c =? 32)
   || (c =? 160) || (c =? 5760) || ((8192 <=? c) && (c <=? 8202))
   || (c =? 8232) || (c =? 8233) || (c =? 8239) || (c =? 8287)
   || (c =? 12288) || (c =? 65279))%N.

Definition isDigit (c : code) : bool := ((48 <=? c) && (c <=? 57))%N.

Fixpoint trimStart (s : jsstring) : jsstring :=
  match s with
  | c :: s' => if isWhiteSpace c then trimStart s' else s
  | [] => []
  end.

Definition trimEnd (s : jsstring) : jsstring := rev (trimStart (rev s)).

(** [String.prototype.trim] *)
Definition trim (s : jsstring) : jsstring := trimEnd (trimStart s).

(** ToBoolean on a string: the empty string is falsy. *)
Definition truthyString (s : jsstring) : bool :=
  match s with [] => false | _ :: _ => true end.

(** ToBoolean on a value that is a string or null. *)
Definition truthy (v : option jsstring) : bool :=
  match v with Some s => truthyString s | None => false end.

(** [s.split(sep)] for a separator string of one code unit. *)
Fixpoint splitOnFrom (sep : code) (s acc : jsstring) : list jsstring :=
  match s with
  | [] => [acc]
  | c :: s' => if (c =? sep)%N then acc :: splitOnFrom sep s' []
               else splitOnFrom sep s' (acc ++ [c])
  end.

Definition splitOn (sep : code) (s : jsstring) : list jsstring :=
  splitOnFrom sep s [].

(** ** Exceptions *)

Inductive JsError := TypeError.

Inductive result (A : Type) :=
| Ok (a : A)
| Throw (e : JsError).
Arguments Ok {A} a.
Arguments Throw {A} e.

Definition bind {A B} (m : result A) (f : A -> result B) : result B :=
  match m with
  | Ok a => f a
  | Throw e => Throw e
  end.

Notation "x <- m ;; k" := (bind m (fun x => k))
  (at level 61, m at next level, right associativity).

(** ** Regular expressions *)

Inductive CharClass :=
| ClassDigit        (* \d *)
| ClassSpace        (* \s *)
| ClassNotNewline.  (* [^\n] *)

Inductive Regex :=
| Empty
| Char (c : code)
| Class (cl : CharClass)
| Seq (r1 r2 : Regex)
| Alt (r1 r2 : Regex)          (* r1|r2 *)
| Star (cl : CharClass)        (* greedy cl* *)
| Group (r : Regex)            (* capturing group 1 *)
| Lookahead (r : Regex)        (* (?=r) *)
| AssertStart.                 (* ^ without the m flag *)

(** [cl+] *)
Definition Plus (cl : CharClass) : Regex := Seq (Class cl) (Star cl).

Fixpoint chars (s : jsstring) : Regex :=
  match s with
  | [] => Empty
  | c :: s' => Seq (Char c) (chars s')
  end.

(** A literal run of pattern characters. *)
Definition Lit (s : string) : Regex := chars (js s).

Record RegExp := { source : Regex; ignoreCase : bool }.

Section Host.

(** The upper-case mapping of the host's Unicode tables on the code units
    outside ASCII ([String.prototype.toUpperCase] on a one-unit string, the
    unit itself when the result is longer than one unit). *)
Variable unicodeUpper : code -> code.

Definition toUpperCase (ch : code) : code :=
  (if ch <? 128 then (if (97 <=? ch) && (ch <=? 122) then ch - 32 else ch)
   else unicodeUpper ch)%N.

(** Canonicalize of the ECMAScript pattern semantics, without the u flag. *)
Definition Canonicalize (ic : bool) (ch : code) : code :=
  if ic then
    let cu := toUpperCase ch in
    if ((128 <=? ch) && (cu <? 128))%N then ch else cu
  else ch.

Definition charMatches (ic : bool) (c x : code) : bool :=
  (Canonicalize ic c =? Canonicalize ic x)%N.

(** Membership in a class.  The classes of the source hold no cased unit,
    so matching up to case leaves them as they are. *)
Definition classMem (cl : CharClass) (x : code) : bool :=
  match cl with
  | ClassDigit => isDigit x
  | ClassSpace => isWhiteSpace x
  | ClassNotNewline => negb (x =? NL)%N
  end.

(** The end index of a match and the value of capture 1. *)
Definition MatchResult : Type := nat * option jsstring.

Definition Continuation : Type :=
  nat -> jsstring -> option jsstring -> option MatchResult.

(** Greedy repetition of a one-unit matcher: the longest run first, then
    each shorter one until the continuation succeeds. *)
Fixpoint starLoop (p : code -> bool) (k : nat -> jsstring -> option MatchResult)
    (n : nat) (rest : jsstring) : option MatchResult :=
  match rest with
  | x :: rest' =>
      if p x then
        match starLoop p k (S n) rest' with
        | Some res => Some res
        | None => k n rest
        end
      else k n rest
  | [] => k n []
  end.

(** The backtracking matcher.  [n] is the index reached in the input, [rest]
    the input from that index on, [cap] the current value of capture 1. *)
Fixpoint matcher (ic : bool) (r : Regex) (k : Continuation)
    (n : nat) (rest : jsstring) (cap : option jsstring) : option MatchResult :=
  match r with
  | Empty => k n rest cap
  | Char c =>
      match rest with
      | x :: rest' => if charMatches ic c x then k (S n) rest' cap else None
      | [] => None
      end
  | Class cl =>
      match rest with
      | x :: rest' => if classMem cl x then k (S n) rest' cap else None
      | [] => None
      end
  | Seq r1 r2 =>
      matcher ic r1 (fun n' rest' cap' => matcher ic r2 k n' rest' cap') n rest cap
  | Alt r1 r2 =>
      match matcher ic r1 k n rest cap with
      | Some res => Some res
      | None => matcher ic r2 k n rest cap
      end
  | Star cl =>
      starLoop (classMem cl) (fun n' rest' => k n' rest' cap) n rest
  | Group r1 =>
      matcher ic r1
        (fun n' rest' _ => k n' rest' (Some (firstn (n' - n) rest))) n rest cap
  | Lookahead r1 =>
      match matcher ic r1 (fun n' _ cap' => Some (n', cap')) n rest cap with
      | Some (_, cap') => k n rest cap'
      | None => None
      end
  | AssertStart => if (n =? 0)%nat then k n rest cap else None
  end.

(** A match attempt at exactly index [n] (the input from [n] on is [rest]). *)
Definition matchAt (re : RegExp) (n : nat) (rest : jsstring) : option MatchResult :=
  matcher (ignoreCase re) (source re) (fun n' _ cap => Some (n', cap)) n rest None.

(** RegExp exec without the g and y flags: the first index, from 0 up to
    the length of the input, at which the pattern matches.  The result is
    the start index, the end index and capture 1. *)
Fixpoint execFrom (re : RegExp) (n : nat) (rest : jsstring)
    : option (nat * nat * option jsstring) :=
  match matchAt re n rest with
  | Some (e, cap) => Some (n, e, cap)
  | None =>
      match rest with
      | [] => None
      | _ :: rest' => execFrom re (S n) rest'
      end
  end.

Definition exec (re : RegExp) (s : jsstring) := execFrom re 0 s.

(** [s.replace(re, '')] for a regular expression without the g flag. *)
Definition replaceWithEmpty (re : RegExp) (s : jsstring) : jsstring :=
  match exec re s with
  | Some (b, e, _) => firstn b s ++ skipn e s
  | None => s
  end.

(** The loop of [s.split(re)] for a regular expression without capturing
    groups.  [q] is the index tried, [rest] the input from [q] on, [acc] the
    units from the last split point [p] up to [q], and [skip] the number of
    units of a matched separator still to pass over. *)
Fixpoint splitLoop (re : RegExp) (q : nat) (rest : jsstring) (skip : nat)
    (acc : jsstring) : list jsstring :=
  match rest with
  | [] => [acc]
  | c :: rest' =>
      match skip with
      | S skip' => splitLoop re (S q) rest' skip' acc
      | O =>
          match matchAt re q rest with
          | None => splitLoop re (S q) rest' 0 (acc ++ [c])
          | Some (e, _) =>
              if (e =? q)%nat then
                match acc with
                | [] => splitLoop re (S q) rest' 0 [c]            (* e = p *)
                | _ :: _ => acc :: splitLoop re (S q) rest' 0 [c]
                end
              else acc :: splitLoop re (S q) rest' (e - q - 1) []
          end
      end
  end.

Definition split (re : RegExp) (s : jsstring) : list jsstring :=
  match s with
  | [] => match matchAt re 0 [] with Some _ => [] | None => [[]] end
  | _ :: _ => splitLoop re 0 s 0 []
  end.

(** ** The parser *)

Record GrantRecord := {
  raw : jsstring;
  title : option jsstring;
  organization : option jsstring;
  amount : option jsstring;
  deadline : option jsstring;
  description : jsstring
}.

(** /\n\n(?=\d+\.|Grant|Foundation)/ *)
Definition sectionSeparator : RegExp :=
  {| source :=
       Seq (Char NL) (Seq (Char NL)
         (Lookahead (Alt (Seq (Plus ClassDigit) (Lit "."))
                    (Alt (Lit "Grant") (Lit "Foundation")))));
     ignoreCase := false |}.

(** /^\d+\.\s*/ *)
Definition numberingRe : RegExp :=
  {| source := Seq AssertStart (Seq (Plus ClassDigit) (Seq (Lit ".") (Star ClassSpace)));
     ignoreCase := false |}.

(** /^Grant:\s*/i *)
Definition grantPrefixRe : RegExp :=
  {| source := Seq AssertStart (Seq (Lit "Grant:") (Star ClassSpace));
     ignoreCase := true |}.

(** /^Foundation:\s*/i *)
Definition foundationPrefixRe : RegExp :=
  {| source := Seq AssertStart (Seq (Lit "Foundation:") (Star ClassSpace));
     ignoreCase := true |}.

(** /(?:l1|l2|l3):\s*([^\n]+)/i *)
Definition labelledRe (l1 l2 l3 : string) : RegExp :=
  {| source :=
       Seq (Alt (Lit l1) (Alt (Lit l2) (Lit l3)))
         (Seq (Lit ":") (Seq (Star ClassSpace) (Group (Plus ClassNotNewline))));
     ignoreCase := true |}.

Definition organizationRe := labelledRe "Foundation" "Organization" "Funder".
Definition amountRe := labelledRe "Amount" "Funding" "Grant Size".
Definition deadlineRe := labelledRe "Deadline" "Due" "Application Due".

(** [firstLine] is the value of [lines[0]]: [None] is undefined, on which
    the call of [replace] throws. *)
Definition extractTitle (firstLine : option jsstring) : result jsstring :=
  match firstLine with
  | None => Throw TypeError
  | Some l =>
      Ok (trim (replaceWithEmpty foundationPrefixRe
                 (replaceWithEmpty grantPrefixRe
                   (replaceWithEmpty numberingRe l))))
  end.

(** [match ? match[1].trim() : null]; [match[1]] is undefined when the group
    took no part in the match, and [trim] throws on it. *)
Definition extractField (re : RegExp) (text : jsstring) : result (option jsstring) :=
  match exec re text with
  | None => Ok None
  | Some (_, _, Some m1) => Ok (Some (trim m1))
  | Some (_, _, None) => Throw TypeError
  end.

Definition extractOrganization := extractField organizationRe.
Definition extractAmount := extractField amountRe.
Definition extractDeadline := extractField deadlineRe.

Definition nonBlank (l : jsstring) : bool := truthyString (trim l).

(** The body of the [for ... of] loop, threading the [grants] array. *)
Fixpoint parseSections (sections : list jsstring) (grants : list GrantRecord)
    : result (list GrantRecord) :=
  match sections with
  | [] => Ok grants
  | section :: more =>
      if (50 <? length (trim section))%nat then
        let lines := filter nonBlank (splitOn NL section) in
        if (0 <? length lines)%nat then
          t <- extractTitle (nth_error lines 0) ;;
          o <- extractOrganization section ;;
          a <- extractAmount section ;;
          d <- extractDeadline section ;;
          parseSections more
            (grants ++ [{| raw := section; title := Some t; organization := o;
                           amount := a; deadline := d; description := section |}])
        else parseSections more grants
      else parseSections more grants
  end.

Definition parseGrantText (text : jsstring) : result (list GrantRecord) :=
  parseSections (split sectionSeparator text) [].

(** ** The document tree handed to the docx library *)

Inductive HeadingLevel := HEADING_1 | HEADING_2 | HEADING_3.
Inductive AlignmentType := LEFT | CENTER | RIGHT.
Inductive RunField := PageNumber_CURRENT.

Record TextRun := {
  runText : jsstring;
  runChildren : list RunField;
  bold : bool;
  size : option N;
  color : option jsstring
}.

Record Spacing := { before : option N; after : option N }.
Record NumberingRef := { reference : jsstring; level : N }.

Record Paragraph := {
  heading : option HeadingLevel;
  alignment : option AlignmentType;
  numbering : option NumberingRef;
  spacing : option Spacing;
  children : list TextRun
}.

(** BorderStyle.SINGLE with a size and a colour. *)
Record Border := { borderSize : N; borderColor : jsstring }.
Record Borders := {
  borderTop : Border; borderBottom : Border;
  borderLeft : Border; borderRight : Border
}.
Record Margins := {
  marginTop : N; marginBottom : N; marginLeft : N; marginRight : N
}.

Record TableCell := {
  borders : Borders;
  cellWidth : N;                 (* WidthType.DXA *)
  shadingFill : option jsstring; (* ShadingType.CLEAR *)
  margins : Margins;
  cellChildren : list Paragraph
}.

Record TableRow := { cells : list TableCell }.

Record Table := {
  tableWidth : N;                (* WidthType.PERCENTAGE *)
  columnWidths : list N;
  rows : list TableRow
}.

Inductive Block :=
| BlockParagraph (p : Paragraph)
| BlockTable (t : Table).

(** The one section of the document: its running header and footer and its
    body.  The style sheet, the numbering definition and the page geometry
    are constants of the source. *)
Record Document := {
  headerDefault : list Paragraph;
  footerDefault : list Paragraph;
  sectionChildren : list Block
}.

Record ContextParameter := {
  paramId : jsstring;
  label : jsstring;
  paramDescription : jsstring
}.

Record ReportData := {
  text : jsstring;
  orgDescription : option jsstring;
  contextParameters : option (list ContextParameter);
  timestamp : jsstring
}.

(** [new TextRun(s)] *)
Definition plainRun (s : jsstring) : TextRun :=
  {| runText := s; runChildren := []; bold := false; size := None; color := None |}.

(** [new Paragraph({ heading: h, children: [new TextRun(s)] })] *)
Definition headingParagraph (h : HeadingLevel) (s : jsstring) : Paragraph :=
  {| heading := Some h; alignment := None; numbering := None; spacing := None;
     children := [plainRun s] |}.

Fixpoint digitsOf (d : Decimal.uint) : jsstring :=
  match d with
  | Decimal.Nil => []
  | Decimal.D0 d => 48%N :: digitsOf d
  | Decimal.D1 d => 49%N :: digitsOf d
  | Decimal.D2 d => 50%N :: digitsOf d
  | Decimal.D3 d => 51%N :: digitsOf d
  | Decimal.D4 d => 52%N :: digitsOf d
  | Decimal.D5 d => 53%N :: digitsOf d
  | Decimal.D6 d => 54%N :: digitsOf d
  | Decimal.D7 d => 55%N :: digitsOf d
  | Decimal.D8 d => 56%N :: digitsOf d
  | Decimal.D9 d => 57%N :: digitsOf d
  end.

(** ToString of an array index. *)
Definition numberToString (n : nat) : jsstring := digitsOf (Nat.to_uint n).

(** [a || b] on string-or-null values. *)
Definition orElse (a : option jsstring) (b : option jsstring) : option jsstring :=
  if truthy a then a else b.

(** The text of [`${index + 1}. ${grant.title || 'Grant Opportunity'}`]. *)
Definition grantHeadingText (index : nat) (grant : GrantRecord) : jsstring :=
  numberToString (index + 1) ++ js ". "
  ++ (if truthy (title grant) then
        match title grant with Some t => t | None => [] end
      else js "Grant Opportunity").

Definition createTableRow (lbl value : jsstring) (bs : Borders) : TableRow :=
  {| cells :=
       [ {| borders := bs; cellWidth := 2800; shadingFill := Some (js "D5E8F0");
            margins := {| marginTop := 80; marginBottom := 80;
                          marginLeft := 120; marginRight := 120 |};
            cellChildren :=
              [ {| heading := None; alignment := None; numbering := None;
                   spacing := None;
                   children := [ {| runText := lbl; runChildren := [];
                                    bold := true; size := Some 22%N;
                                    color := None |} ] |} ] |};
         {| borders := bs; cellWidth := 6560; shadingFill := None;
            margins := {| marginTop := 80; marginBottom := 80;
                          marginLeft := 120; marginRight := 120 |};
            cellChildren :=
              [ {| heading := None; alignment := None; numbering := None;
                   spacing := None;
                   children := [ {| runText := value; runChildren := [];
                                    bold := false; size := Some 22%N;
                                    color := None |} ] |} ] |} ] |}.

Definition cellBorders : Borders :=
  let border := {| borderSize := 1; borderColor := js "CCCCCC" |} in
  {| borderTop := border; borderBottom := border;
     borderLeft := border; borderRight := border |}.

(** The value of a field inside [if (grant.field)]: a truthy string. *)
Definition fieldValue (v : option jsstring) : jsstring :=
  match v with Some s => s | None => [] end.

Definition descriptionParagraph (grant : GrantRecord) : Paragraph :=
  {| heading := None; alignment := None; numbering := None;
     spacing := Some {| before := Some 180%N; after := Some 360%N |};
     children := [plainRun (description grant)] |}.

(** The body of the [forEach] callback of createGrantSections, threading
    the [sections] array. *)
Definition pushGrant (sections : list Block) (index : nat) (grant : GrantRecord)
    : list Block :=
  let sections :=
    sections ++ [BlockParagraph (headingParagraph HEADING_3 (grantHeadingText index grant))] in
  let sections :=
    if truthy (orElse (orElse (organization grant) (amount grant)) (deadline grant)) then
      let rows := [] in
      let rows :=
        if truthy (organization grant)
        then rows ++ [createTableRow (js "Organization") (fieldValue (organization grant)) cellBorders]
        else rows in
      let rows :=
        if truthy (amount grant)
        then rows ++ [createTableRow (js "Amount") (fieldValue (amount grant)) cellBorders]
        else rows in
      let rows :=
        if truthy (deadline grant)
        then rows ++ [createTableRow (js "Deadline") (fieldValue (deadline grant)) cellBorders]
        else rows in
      sections ++ [BlockTable {| tableWidth := 100; columnWidths := [2800; 6560]%N;
                                 rows := rows |}]
    else sections in
  sections ++ [BlockParagraph (descriptionParagraph grant)].

Fixpoint forEachGrant (grants : list GrantRecord) (index : nat) (sections : list Block)
    : list Block :=
  match grants with
  | [] => sections
  | grant :: more => forEachGrant more (S index) (pushGrant sections index grant)
  end.

Definition createGrantSections (grants : list GrantRecord) : list Block :=
  forEachGrant grants 0 [].

Definition mutedRun (s : jsstring) (fields : list RunField) (sz : N) : TextRun :=
  {| runText := s; runChildren := fields; bold := false; size := Some sz;
     color := Some (js "586069") |}.

Definition organizationProfile (data : ReportData) : list Block :=
  if truthy (orgDescription data) then
    [ BlockParagraph (headingParagraph HEADING_2 (js "Organization Profile"));
      BlockParagraph
        {| heading := None; alignment := None; numbering := None;
           spacing := Some {| before := None; after := Some 240%N |};
           children := [plainRun (fieldValue (orgDescription data))] |} ]
  else [].

Definition parameterItem (param : ContextParameter) : Block :=
  BlockParagraph
    {| heading := None; alignment := None;
       numbering := Some {| reference := js "bullets"; level := 0 |};
       spacing := None;
       children :=
         [ {| runText := label param ++ js ": "; runChildren := []; bold := true;
              size := None; color := None |};
           plainRun (paramDescription param) ] |}.

(** [contextParameters && contextParameters.length > 0] *)
Definition hasParameters (data : ReportData) : bool :=
  match contextParameters data with
  | Some ps => (0 <? length ps)%nat
  | None => false
  end.

Definition searchParameters (data : ReportData) : list Block :=
  if hasParameters data then
    [ BlockParagraph (headingParagraph HEADING_2 (js "Search Parameters")) ]
    ++ map parameterItem
         (match contextParameters data with Some ps => ps | None => [] end)
    ++ [ BlockParagraph
           {| heading := None; alignment := None; numbering := None;
              spacing := Some {| before := None; after := Some 240%N |};
              children := [plainRun []] |} ]
  else [].

Section Report.

(** [new Date(timestamp).toLocaleDateString('en-US', { weekday: 'long',
    year: 'numeric', month: 'long', day: 'numeric' })], computed by the host. *)
Variable toLocaleDateString : jsstring -> jsstring.

(** The [Document] built by generateGrantReportWord before it is packed. *)
Definition reportDocument (data : ReportData) : result Document :=
  grants <- parseGrantText (text data) ;;
  Ok {| headerDefault :=
          [ {| heading := None; alignment := Some RIGHT; numbering := None;
               spacing := None;
               children := [mutedRun (js "Grant Prospecting Report") [] 20] |} ];
        footerDefault :=
          [ {| heading := None; alignment := Some CENTER; numbering := None;
               spacing := None;
               children := [ mutedRun (js "Page ") [] 20;
                             mutedRun [] [PageNumber_CURRENT] 20 ] |} ];
        sectionChildren :=
          [ BlockParagraph (headingParagraph HEADING_1 (js "Grant Prospecting Report"));
            BlockParagraph
              {| heading := None; alignment := None; numbering := None;
                 spacing := Some {| before := None; after := Some 240%N |};
                 children :=
                   [mutedRun (js "Generated: " ++ toLocaleDateString (timestamp data)) [] 22] |} ]
          ++ organizationProfile data
          ++ searchParameters data
          ++ [ BlockParagraph (headingParagraph HEADING_2 (js "Grant Opportunities")) ]
          ++ createGrantSections grants |}.

(** [Packer.toBuffer] of the docx library and the type of its buffers. *)
Variable Buffer : Type.
Variable Packer_toBuffer : Document -> result Buffer.


End Report.

(** ** Auxiliary functions used to state the properties *)

Definition allWs (s : jsstring) : bool := forallb isWhiteSpace s.

(** The longest prefix of units satisfying [p], and what follows it. *)
Fixpoint run (p : code -> bool) (s : jsstring) : jsstring :=
  match s with
  | x :: s' => if p x then x :: run p s' else []
  | [] => []
  end.

Fixpoint afterRun (p : code -> bool) (s : jsstring) : jsstring :=
  match s with
  | x :: s' => if p x then afterRun p s' else s
  | [] => []
  end.

(** [s] without the pattern characters [p] at its head, when it starts with
    them (up to case when [ic] is set). *)
Fixpoint stripPrefix (ic : bool) (p s : jsstring) : option jsstring :=
  match p with
  | [] => Some s
  | c :: p' =>
      match s with
      | x :: s' => if charMatches ic c x then stripPrefix ic p' s' else None
      | [] => None
      end
  end.

Definition startsWith (p : string) (s : jsstring) : bool :=
  match stripPrefix false (js p) s with Some _ => true | None => false end.

(** Digits and a full stop at the head of [t]. *)
Definition digitsDot (t : jsstring) : bool :=
  match t with
  | d :: t' =>
      isDigit d &&
      match afterRun isDigit t' with
      | x :: _ => (x =? 46)%N
      | [] => false
      end
  | [] => false
  end.

(** The pattern inside the lookahead of the section separator. *)
Definition markerRe : Regex :=
  Alt (Seq (Plus ClassDigit) (Lit "."))
      (Alt (Lit "Grant") (Lit "Foundation")).

(** What the lookahead of the section separator accepts. *)
Definition isMarker (t : jsstring) : bool :=
  digitsDot t || startsWith "Grant" t || startsWith "Foundation" t.

(** A section boundary at the head of [rest]: two newlines and a marker. *)
Definition sepHere (rest : jsstring) : bool :=
  match rest with
  | a :: b :: t => (a =? NL)%N && (b =? NL)%N && isMarker t
  | _ => false
  end.

(** A valid section boundary before the chunk [B]: the separator of the
    source matches at the two newlines put in front of [B]. *)
Definition boundaryBefore (B : jsstring) : bool :=
  match matchAt sectionSeparator 0 ([NL; NL] ++ B) with
  | Some _ => true
  | None => false
  end.

(** [sections.join(sep)] *)
Fixpoint joinWith (sep : jsstring) (l : list jsstring) : jsstring :=
  match l with
  | [] => []
  | x :: l' =>
      match l' with
      | [] => x
      | _ :: _ => x ++ sep ++ joinWith sep l'
      end
  end.

(** The test of the parser on a section. *)
Definition longEnough (section : jsstring) : bool :=
  (50 <? length (trim section))%nat.

(** The record pushed for a section that passes the tests, read off the
    object literal of parseGrantText on the paths that do not throw. *)
Definition titleOf (section : jsstring) : jsstring :=
  trim (replaceWithEmpty foundationPrefixRe
         (replaceWithEmpty grantPrefixRe
           (replaceWithEmpty numberingRe
             (hd [] (filter nonBlank (splitOn NL section)))))).

Definition fieldOf (re : RegExp) (section : jsstring) : option jsstring :=
  match exec re section with
  | Some (_, _, Some m1) => Some (trim m1)
  | _ => None
  end.

Definition recordOf (section : jsstring) : GrantRecord :=
  {| raw := section;
     title := Some (titleOf section);
     organization := fieldOf organizationRe section;
     amount := fieldOf amountRe section;
     deadline := fieldOf deadlineRe section;
     description := section |}.

(** *** Field extraction as the specification words it

    The first place in the section at which a label variant followed by a
    colon occurs, up to case; the value is the rest of that line, trimmed;
    null when no variant occurs. *)

Definition afterLabel (lbl : string) (s : jsstring) : option jsstring :=
  stripPrefix true (js lbl ++ js ":") s.

Definition notNewline (x : code) : bool := negb (x =? NL)%N.

Definition restOfLine (s : jsstring) : jsstring := run notNewline s.

Fixpoint firstLabel (labels : list string) (s : jsstring) : option jsstring :=
  match labels with
  | [] => None
  | l :: more =>
      match afterLabel l s with
      | Some r => Some r
      | None => firstLabel more s
      end
  end.

Fixpoint spec_extractField (labels : list string) (s : jsstring) : option jsstring :=
  match firstLabel labels s with
  | Some r => Some (trim (restOfLine r))
  | None =>
      match s with
      | [] => None
      | _ :: s' => spec_extractField labels s'
      end
  end.

Definition organizationLabels : list string := ["Foundation"; "Organization"; "Funder"]%string.
Definition amountLabels : list string := ["Amount"; "Funding"; "Grant Size"]%string.
Definition deadlineLabels : list string := ["Deadline"; "Due"; "Application Due"]%string.

(** *** One alternative of a labelled-field pattern at one index *)

(** What follows the label and the colon: [\s*([^\n]+)]. *)
Definition valueRe : Regex := Seq (Star ClassSpace) (Group (Plus ClassNotNewline)).

Definition valueMatch (n : nat) (r : jsstring) : option MatchResult :=
  matcher true valueRe (fun n' _ cap' => Some (n', cap')) n r None.

Definition attempt (l : string) (n : nat) (s : jsstring) : option MatchResult :=
  match afterLabel l s with
  | Some r => valueMatch (n + length (js l) + 1) r
  | None => None
  end.

(** *** The grant subsections, read declaratively *)

Definition attributeTable (rs : list TableRow) : Block :=
  BlockTable {| tableWidth := 100; columnWidths := [2800; 6560]%N; rows := rs |}.

(** The row of a field whose value is a non-empty string. *)
Definition rowOf (lbl : string) (v : option jsstring) : list TableRow :=
  if truthy v then [createTableRow (js lbl) (fieldValue v) cellBorders] else [].

Definition rowsOf (g : GrantRecord) : list TableRow :=
  rowOf "Organization" (organization g) ++ rowOf "Amount" (amount g)
  ++ rowOf "Deadline" (deadline g).

Definition subsection (index : nat) (g : GrantRecord) : list Block :=
  [BlockParagraph (headingParagraph HEADING_3 (grantHeadingText index g))]
  ++ (if truthy (organization g) || truthy (amount g) || truthy (deadline g)
      then [attributeTable (rowsOf g)] else [])
  ++ [BlockParagraph (descriptionParagraph g)].

Fixpoint subsectionsFrom (index : nat) (grants : list GrantRecord) : list Block :=
  match grants with
  | [] => []
  | g :: more => subsection index g ++ subsectionsFrom (S index) more
  end.

(** *** The grant subsections as the specification words them: the title
    unless it is null, a table when a field is non-null, a row for each
    non-null field. *)

Definition isNull (v : option jsstring) : bool :=
  match v with None => true | Some _ => false end.

Definition spec_headingText (index : nat) (g : GrantRecord) : jsstring :=
  numberToString (index + 1) ++ js ". "
  ++ match title g with Some t => t | None => js "Grant Opportunity" end.

Definition spec_rowOf (lbl : string) (v : option jsstring) : list TableRow :=
  match v with
  | Some s => [createTableRow (js lbl) s cellBorders]
  | None => []
  end.

Definition spec_rowsOf (g : GrantRecord) : list TableRow :=
  spec_rowOf "Organization" (organization g) ++ spec_rowOf "Amount" (amount g)
  ++ spec_rowOf "Deadline" (deadline g).

Definition spec_subsection (index : nat) (g : GrantRecord) : list Block :=
  [BlockParagraph (headingParagraph HEADING_3 (spec_headingText index g))]
  ++ (if isNull (organization g) && isNull (amount g) && isNull (deadline g)
      then [] else [attributeTable (spec_rowsOf g)])
  ++ [BlockParagraph (descriptionParagraph g)].

Fixpoint spec_subsectionsFrom (index : nat) (grants : list GrantRecord) : list Block :=
  match grants with
  | [] => []
  | g :: more => spec_subsection index g ++ spec_subsectionsFrom (S index) more
  end.

(** *** Reading headings off a list of blocks *)

Definition sameLevel (a b : HeadingLevel) : bool :=
  match a, b with
  | HEADING_1, HEADING_1 | HEADING_2, HEADING_2 | HEADING_3, HEADING_3 => true
  | _, _ => false
  end.

Definition paragraphText (p : Paragraph) : jsstring :=
  concat (map runText (children p)).

(** The texts of the headings of level [h], in document order. *)
Fixpoint headingTexts (h : HeadingLevel) (blocks : list Block) : list jsstring :=
  match blocks with
  | [] => []
  | BlockParagraph p :: more =>
      match heading p with
      | Some h' =>
          if sameLevel h h' then paragraphText p :: headingTexts h more
          else headingTexts h more
      | None => headingTexts h more
      end
  | BlockTable _ :: more => headingTexts h more
  end.

(** The heading texts of the records, numbered from [index] on. *)
Fixpoint headingsFrom (index : nat) (grants : list GrantRecord) : list jsstring :=
  match grants with
  | [] => []
  | g :: more => grantHeadingText index g :: headingsFrom (S index) more
  end.

(** *** Inputs of the examples *)

Definition c1_input : jsstring :=
  js "1. Foundation ABC" ++ [NL] ++ js "Foundation: XYZ Corp" ++ [NL]
  ++ js "Amount: $10,000" ++ [NL] ++ js "Deadline: 2026-01-01" ++ [NL]
  ++ js "Some description text padding to exceed fifty characters total.".

(** A text of three grants, each starting at a section boundary. *)
Definition threeGrants : jsstring :=
  js "1. Alpha Fund" ++ [NL] ++ js "Foundation: Alpha Org" ++ [NL]
  ++ js "Amount: $1,000" ++ [NL] ++ js "Supports community health programs."
  ++ [NL; NL]
  ++ js "2. Grant: Beta Award" ++ [NL] ++ js "Funder: Beta Trust" ++ [NL]
  ++ js "This award supports rural education initiatives."
  ++ [NL; NL]
  ++ js "Foundation: Gamma Giving" ++ [NL]
  ++ js "A long description of the third opportunity, without other fields.".

(** A section of exactly fifty units. *)
Definition fiftyUnits : jsstring :=
  js "Grant: a research award of exactly fifty units ok.".

(** A section whose first line is only a list marker. *)
Definition markerOnlyTitle : jsstring :=
  js "1." ++ [NL] ++ js "Foundation: X Corporation" ++ [NL]
  ++ js "A description that is long enough to pass the length test.".

(** A label whose line ends after the colon. *)
Definition labelThenNewline : jsstring :=
  js "Foundation:" ++ [NL] ++ js "Amount: $5,000".

(** A section that is long enough to be retained and holds a label whose
    line ends after the colon. *)
Definition labelThenNewlineSection : jsstring :=
  js "1. Alpha Fund" ++ [NL] ++ js "Foundation:" ++ [NL]
  ++ js "Amount: $5,000" ++ [NL]
  ++ js "A description that is long enough to pass the length test.".

(** A section that ends with a label, its colon and one space. *)
Definition blankOrganization : jsstring :=
  js "1. Alpha Fund" ++ [NL]
  ++ js "A description that is long enough to pass the length test." ++ [NL]
  ++ js "Foundation: ".

(** A host whose upper-case mapping leaves the units outside ASCII alone. *)
Definition plainUpper (ch : code) : code := ch.



(** *** The length test as the specification words it: every candidate
    section of at least fifty units, trimmed, becomes a record. *)

Definition spec_retained (text : jsstring) : Prop :=
  forall section,
    In section (split sectionSeparator text) ->
    50 <= length (trim section) ->
    exists grants,
      parseGrantText text = Ok grants /\ In section (map raw grants).

(** *** The title of a line, read without patterns *)

(** A line without its leading list marker: the digits, the full stop and
    the white space after it. *)
Definition stripNumbering (l : jsstring) : jsstring :=
  if digitsDot l then afterRun isWhiteSpace (tl (afterRun isDigit l)) else l.

(** A line without the leading word [p], in any case, and the white space
    after it. *)
Definition stripWord (p : string) (l : jsstring) : jsstring :=
  match stripPrefix true (js p) l with
  | Some r => afterRun isWhiteSpace r
  | None => l
  end.

(** The separator matches at no place of [s]. *)
Definition noSep (s : jsstring) : Prop :=
  forall u v, s = u ++ v -> sepHere v = false.

(** A value that is its own trim and holds no newline; null counts. *)
Definition tidy (v : option jsstring) : Prop :=
  match v with
  | Some s => trim s = s /\ forallb notNewline s = true
  | None => True
  end.

(** *** The value of a field as the pattern takes it *)

(** What follows the colon of the first place at which a label variant with
    a colon occurs. *)
Fixpoint firstLabelled (labels : list string) (s : jsstring) : option jsstring :=
  match firstLabel labels s with
  | Some r => Some r
  | None =>
      match s with
      | [] => None
      | _ :: s' => firstLabelled labels s'
      end
  end.

(** The line of the first visible unit of [r], trimmed. *)
Definition firstVisibleLine (r : jsstring) : jsstring :=
  trim (restOfLine (afterRun isWhiteSpace r)).

(** *** Reading tables and list items off a list of blocks *)

(** [grant.organization || grant.amount || grant.deadline] is truthy. *)
Definition hasField (g : GrantRecord) : bool :=
  truthy (organization g) || truthy (amount g) || truthy (deadline g).

Fixpoint tablesOf (blocks : list Block) : list Table :=
  match blocks with
  | [] => []
  | BlockTable t :: more => t :: tablesOf more
  | BlockParagraph _ :: more => tablesOf more
  end.

(** A table as wide as the page, of two columns 2800 and 6560 wide, with
    one to three rows; each row has exactly two cells, the first 2800 and
    the second 6560 wide. *)
Definition wellFormedTable (t : Table) : Prop :=
  tableWidth t = 100%N /\
  columnWidths t = [2800; 6560]%N /\
  1 <= length (rows t) <= 3 /\
  Forall (fun r => length (cells r) = 2 /\
                   map cellWidth (cells r) = [2800; 6560]%N) (rows t).

(** The paragraphs that are items of a numbered or bulleted list. *)
Fixpoint bulletsOf (blocks : list Block) : list Paragraph :=
  match blocks with
  | [] => []
  | BlockParagraph p :: more =>
      match numbering p with
      | Some _ => p :: bulletsOf more
      | None => bulletsOf more
      end
  | BlockTable _ :: more => bulletsOf more
  end.

(** The parameters of a request, none when the array is null. *)
Definition parametersOf (data : ReportData) : list ContextParameter :=
  match contextParameters data with Some ps => ps | None => [] end.

(** A pattern whose literal characters are all ASCII. *)
Fixpoint asciiRegex (r : Regex) : bool :=
  match r with
  | Char c => (c <? 128)%N
  | Seq r1 r2 | Alt r1 r2 => asciiRegex r1 && asciiRegex r2
  | Group r1 | Lookahead r1 => asciiRegex r1
  | Empty | Class _ | Star _ | AssertStart => true
  end.

(** * Properties *)

(** ** Facts about trimming *)

Lemma trimStart_app (x y : jsstring) :
  trimStart (x ++ y) = if allWs x then trimStart y else trimStart x ++ y.
Proof.
  induction x as [|c x IH]; simpl; [reflexivity|].
  destruct (isWhiteSpace c); simpl; [exact IH | reflexivity].
Qed.

Lemma trimStart_allWs (s : jsstring) : allWs s = true -> trimStart s = [].
Proof.
  induction s as [|c s IH]; simpl; [reflexivity|].
  destruct (isWhiteSpace c); simpl; [exact IH | discriminate].
Qed.

Lemma allWs_rev (s : jsstring) : allWs (rev s) = allWs s.
Proof.
  unfold allWs. induction s as [|c s IH]; simpl; [reflexivity|].
  rewrite forallb_app, IH. simpl. rewrite andb_true_r. apply andb_comm.
Qed.

Lemma allWs_app (x y : jsstring) : allWs (x ++ y) = allWs x && allWs y.
Proof. apply forallb_app. Qed.

(** [trimEnd] read from the front of the string. *)
Lemma trimEnd_cons (c : code) (s : jsstring) :
  trimEnd (c :: s) = if allWs (c :: s) then [] else c :: trimEnd s.
Proof.
  unfold trimEnd. simpl rev. rewrite trimStart_app, allWs_rev.
  destruct (allWs s) eqn:Hs.
  - simpl. rewrite Hs, andb_true_r.
    rewrite (trimStart_allWs (rev s)) by (rewrite allWs_rev; exact Hs).
    destruct (isWhiteSpace c); reflexivity.
  - simpl allWs. rewrite Hs, andb_false_r. rewrite rev_app_distr. reflexivity.
Qed.

Lemma trimEnd_allWs (s : jsstring) : allWs s = true -> trimEnd s = [].
Proof.
  intros H. unfold trimEnd. rewrite trimStart_allWs; [reflexivity|].
  rewrite allWs_rev. exact H.
Qed.

Lemma trimEnd_nil_inv (s : jsstring) : trimEnd s = [] -> allWs s = true.
Proof.
  destruct s as [|c s]; [reflexivity|]. rewrite trimEnd_cons.
  destruct (allWs (c :: s)); [reflexivity | discriminate].
Qed.

Lemma allWs_trimStart (s : jsstring) : allWs (trimStart s) = allWs s.
Proof.
  induction s as [|c s IH]; simpl; [reflexivity|].
  destruct (isWhiteSpace c) eqn:Hc; simpl; [exact IH | rewrite Hc; reflexivity].
Qed.

(** A string trims to the empty string exactly when it is all white space. *)
Lemma trim_nil_iff (s : jsstring) : trim s = [] <-> allWs s = true.
Proof.
  unfold trim. split; intros H.
  - apply trimEnd_nil_inv in H. rewrite allWs_trimStart in H. exact H.
  - apply trimEnd_allWs. rewrite allWs_trimStart. exact H.
Qed.

Lemma truthy_trim (s : jsstring) : truthyString (trim s) = negb (allWs s).
Proof.
  destruct (allWs s) eqn:H.
  - apply trim_nil_iff in H. rewrite H. reflexivity.
  - destruct (trim s) eqn:E; [|reflexivity].
    apply trim_nil_iff in E. congruence.
Qed.

Lemma length_trimEnd_trimStart (s : jsstring) :
  length (trimEnd (trimStart s)) <= length (trimEnd s).
Proof.
  induction s as [|c s IH]; [simpl; lia|].
  simpl trimStart. destruct (isWhiteSpace c) eqn:Hc; [|lia].
  rewrite (trimEnd_cons c s). destruct (allWs (c :: s)) eqn:Ha; [|simpl; lia].
  simpl in Ha. rewrite Hc in Ha. simpl in Ha.
  rewrite (trimEnd_allWs (trimStart s)) by (rewrite allWs_trimStart; exact Ha).
  simpl; lia.
Qed.

Lemma length_trimEnd_app (x v : jsstring) :
  length (trimEnd x) <= length (trimEnd (x ++ v)).
Proof.
  induction x as [|c x IH]; [unfold trimEnd at 1; simpl; lia|].
  rewrite <- app_comm_cons, !trimEnd_cons.
  destruct (allWs (c :: x ++ v)) eqn:Ha.
  - change (c :: x ++ v) with ((c :: x) ++ v) in Ha.
    rewrite allWs_app in Ha. apply andb_prop in Ha. destruct Ha as [Ha _].
    rewrite Ha. simpl; lia.
  - destruct (allWs (c :: x)); simpl; lia.
Qed.

Lemma length_trim_cons (c : code) (s : jsstring) :
  length (trim s) <= length (trim (c :: s)).
Proof.
  unfold trim. simpl trimStart. destruct (isWhiteSpace c) eqn:Hc; [lia|].
  rewrite trimEnd_cons. simpl allWs. rewrite Hc. simpl.
  pose proof (length_trimEnd_trimStart s). lia.
Qed.

Lemma length_trim_app (s v : jsstring) :
  length (trim s) <= length (trim (s ++ v)).
Proof.
  unfold trim. rewrite trimStart_app. destruct (allWs s) eqn:Ha.
  - rewrite (trimStart_allWs s Ha). unfold trimEnd at 1. simpl. lia.
  - apply length_trimEnd_app.
Qed.

(** Trimming a piece of a string never gives more than trimming the string. *)
Lemma length_trim_infix (u s v : jsstring) :
  length (trim s) <= length (trim (u ++ s ++ v)).
Proof.
  induction u as [|c u IH]; simpl.
  - apply length_trim_app.
  - pose proof (length_trim_cons c (u ++ s ++ v)). lia.
Qed.

(** A string that is not all white space has a line that is not. *)
Lemma splitOnFrom_nonblank (s acc : jsstring) :
  allWs acc = false \/ allWs s = false ->
  exists l, In l (splitOnFrom NL s acc) /\ allWs l = false.
Proof.
  revert acc. induction s as [|c s IH]; intros acc H; simpl.
  - destruct H as [H|H]; [|discriminate]. exists acc. split; [left; reflexivity | exact H].
  - destruct (c =? NL)%N eqn:Hc.
    + destruct (allWs acc) eqn:Ha.
      * destruct H as [H|H]; [discriminate|].
        apply N.eqb_eq in Hc. subst c. simpl in H.
        destruct (IH [] (or_intror H)) as [l [Hl Hw]].
        exists l. split; [right; exact Hl | exact Hw].
      * exists acc. split; [left; reflexivity | exact Ha].
    + apply IH. rewrite allWs_app. simpl.
      destruct (allWs acc); [|left; reflexivity].
      destruct H as [H|H]; [discriminate|]. simpl in H.
      destruct (isWhiteSpace c); simpl in *; [right; exact H | left; reflexivity].
Qed.

Lemma lines_nonempty (section : jsstring) :
  allWs section = false ->
  exists l ls, filter nonBlank (splitOn NL section) = l :: ls.
Proof.
  intros H.
  destruct (splitOnFrom_nonblank section [] (or_intror H)) as [l [Hl Hw]].
  destruct (filter nonBlank (splitOn NL section)) as [|l0 ls] eqn:E.
  - assert (Hin : In l (filter nonBlank (splitOn NL section))).
    { apply filter_In. split; [exact Hl|]. unfold nonBlank.
      rewrite truthy_trim, Hw. reflexivity. }
    rewrite E in Hin. destruct Hin.
  - exists l0, ls. reflexivity.
Qed.

(** ** Facts about the matcher *)

Lemma matcher_chars (ic : bool) (p : jsstring) (k : Continuation)
    (n : nat) (rest : jsstring) (cap : option jsstring) :
  matcher ic (chars p) k n rest cap =
  match stripPrefix ic p rest with
  | Some rest' => k (n + length p) rest' cap
  | None => None
  end.
Proof.
  revert n rest. induction p as [|c p IH]; intros n rest; simpl.
  - rewrite Nat.add_0_r. reflexivity.
  - destruct rest as [|x rest]; [reflexivity|].
    destruct (charMatches ic c x); [|reflexivity].
    rewrite IH, Nat.add_succ_r. reflexivity.
Qed.

(** The longest run is tried first. *)
Lemma starLoop_first (p : code -> bool) (k : nat -> jsstring -> option MatchResult)
    (n : nat) (rest : jsstring) (res : MatchResult) :
  k (n + length (run p rest)) (afterRun p rest) = Some res ->
  starLoop p k n rest = Some res.
Proof.
  revert n. induction rest as [|x rest IH]; intros n H; simpl in *.
  - rewrite Nat.add_0_r in H. exact H.
  - destruct (p x); simpl in H.
    + rewrite Nat.add_succ_r in H. rewrite (IH (S n) H). reflexivity.
    + rewrite Nat.add_0_r in H. exact H.
Qed.

(** No shorter run is accepted by a continuation that rejects every input
    starting with a unit of the class. *)
Lemma starLoop_no_backtrack (p : code -> bool)
    (k : nat -> jsstring -> option MatchResult) (n : nat) (rest : jsstring) :
  (forall n' x r, p x = true -> k n' (x :: r) = None) ->
  starLoop p k n rest = k (n + length (run p rest)) (afterRun p rest).
Proof.
  intros Hk. revert n. induction rest as [|x rest IH]; intros n; simpl.
  - rewrite Nat.add_0_r. reflexivity.
  - destruct (p x) eqn:Hp; simpl.
    + rewrite IH, Nat.add_succ_r.
      change (S n + length (run p rest)) with (S (n + length (run p rest))).
      destruct (k (S (n + length (run p rest))) (afterRun p rest)); [reflexivity|].
      apply Hk. exact Hp.
    + rewrite Nat.add_0_r. reflexivity.
Qed.

Lemma starLoop_through_k (p : code -> bool)
    (k : nat -> jsstring -> option MatchResult) (n : nat) (rest : jsstring)
    (res : MatchResult) :
  starLoop p k n rest = Some res -> exists n' rest', k n' rest' = Some res.
Proof.
  revert n. induction rest as [|x rest IH]; intros n H; simpl in H.
  - eauto.
  - destruct (p x); [|eauto].
    destruct (starLoop p k (S n) rest) eqn:E; [|eauto].
    inversion H; subst. eapply IH. exact E.
Qed.

(** Every successful match is a result of the continuation. *)
Lemma matcher_through_k (ic : bool) (r : Regex) :
  forall (k : Continuation) n rest cap res,
    matcher ic r k n rest cap = Some res ->
    exists n' rest' cap', k n' rest' cap' = Some res.
Proof.
  induction r as [|c|cl|r1 IH1 r2 IH2|r1 IH1 r2 IH2|cl|r1 IH1|r1 IH1|];
    intros k n rest cap res H; simpl in H.
  - eauto.
  - destruct rest as [|x rest]; [discriminate|].
    destruct (charMatches ic c x); [eauto | discriminate].
  - destruct rest as [|x rest]; [discriminate|].
    destruct (classMem cl x); [eauto | discriminate].
  - apply IH1 in H. destruct H as [n1 [rest1 [cap1 H]]].
    apply IH2 in H. exact H.
  - destruct (matcher ic r1 k n rest cap) eqn:E.
    + inversion H; subst. eapply IH1. exact E.
    + eapply IH2. exact H.
  - apply starLoop_through_k in H. destruct H as [n' [rest' H]]. eauto.
  - apply IH1 in H. destruct H as [n1 [rest1 [cap1 H]]]. eauto.
  - destruct (matcher ic r1 (fun n' _ cap' => Some (n', cap')) n rest cap)
      as [[e cap']|]; [eauto | discriminate].
  - destruct (n =? 0)%nat; [eauto | discriminate].
Qed.

Lemma charMatches_exact (c x : code) : charMatches false c x = (c =? x)%N.
Proof. reflexivity. Qed.

Lemma digit_not_dot (x : code) : isDigit x = true -> (46 =? x)%N = false.
Proof.
  unfold isDigit. intros H. apply andb_prop in H. destruct H as [H _].
  apply N.leb_le in H. apply N.eqb_neq. lia.
Qed.

Lemma matcher_Alt (ic : bool) (r1 r2 : Regex) (k : Continuation)
    (n : nat) (rest : jsstring) (cap : option jsstring) :
  matcher ic (Alt r1 r2) k n rest cap =
  match matcher ic r1 k n rest cap with
  | Some res => Some res
  | None => matcher ic r2 k n rest cap
  end.
Proof. reflexivity. Qed.

Lemma matcher_Seq (ic : bool) (r1 r2 : Regex) (k : Continuation)
    (n : nat) (rest : jsstring) (cap : option jsstring) :
  matcher ic (Seq r1 r2) k n rest cap =
  matcher ic r1 (fun n' rest' cap' => matcher ic r2 k n' rest' cap') n rest cap.
Proof. reflexivity. Qed.

Lemma matcher_digitsDot (k : Continuation) (n : nat) (t : jsstring) :
  (forall n' rest' cap', k n' rest' cap' = Some (n', cap')) ->
  exists e,
    matcher false (Seq (Plus ClassDigit) (Lit ".")) k n t None =
    if digitsDot t then Some (e, None) else None.
Proof.
  intros Hk. unfold Plus, Lit. cbn [matcher].
  destruct t as [|d t']; [exists 0; reflexivity|].
  cbn [classMem digitsDot]. destruct (isDigit d); cbn [andb]; [|exists 0; reflexivity].
  rewrite starLoop_no_backtrack.
  - rewrite matcher_chars. cbn [js list_ascii_of_string map stripPrefix].
    change (classMem ClassDigit) with isDigit.
    destruct (afterRun isDigit t') as [|x r]; [exists 0; reflexivity|].
    rewrite (charMatches_exact _ x).
    change (N_of_ascii "."%char) with 46%N. rewrite (N.eqb_sym 46 x).
    destruct (x =? 46)%N; [|exists 0; reflexivity].
    rewrite Hk. eexists. reflexivity.
  - intros n' x r Hx. rewrite matcher_chars.
    cbn [js list_ascii_of_string map stripPrefix].
    rewrite (charMatches_exact _ x).
    change (N_of_ascii "."%char) with 46%N.
    rewrite (digit_not_dot x Hx). reflexivity.
Qed.

Lemma matcher_markerRe (n : nat) (t : jsstring) :
  exists e,
    matcher false markerRe (fun n' _ cap' => Some (n', cap')) n t None =
    if isMarker t then Some (e, None) else None.
Proof.
  unfold markerRe, isMarker, startsWith. rewrite !matcher_Alt.
  destruct (matcher_digitsDot (fun n' _ cap' => Some (n', cap')) n t) as [e He];
    [reflexivity|].
  rewrite He. destruct (digitsDot t); cbn [orb]; [exists e; reflexivity|].
  unfold Lit. rewrite !matcher_chars.
  destruct (stripPrefix false (js "Grant") t); cbn [orb]; [eexists; reflexivity|].
  destruct (stripPrefix false (js "Foundation") t);
    [eexists; reflexivity | exists 0; reflexivity].
Qed.

(** The section separator matches exactly at a boundary and spans the two
    newlines. *)
Lemma matchAt_sectionSeparator (q : nat) (rest : jsstring) :
  matchAt sectionSeparator q rest =
  if sepHere rest then Some (q + 2, None) else None.
Proof.
  unfold matchAt, sectionSeparator. cbn [source ignoreCase].
  fold markerRe.
  destruct rest as [|a rest]; [reflexivity|].
  cbn [matcher]. rewrite (charMatches_exact NL a), (N.eqb_sym NL a).
  destruct rest as [|b t]; [destruct (a =? NL)%N; reflexivity|].
  cbn beta iota. rewrite (charMatches_exact NL b), (N.eqb_sym NL b).
  cbn [sepHere].
  destruct (a =? NL)%N; [|reflexivity].
  destruct (b =? NL)%N; [|reflexivity].
  cbn [andb].
  destruct (matcher_markerRe (S (S q)) t) as [e He]. rewrite He.
  destruct (isMarker t); [|reflexivity].
  replace (q + 2) with (S (S q)) by lia. reflexivity.
Qed.

(** ** Facts about splitting *)

Lemma splitLoop_sep_step (q : nat) (c : code) (rest acc : jsstring) :
  splitLoop sectionSeparator q (c :: rest) 0 acc =
  if sepHere (c :: rest)
  then acc :: splitLoop sectionSeparator (S q) rest 1 []
  else splitLoop sectionSeparator (S q) rest 0 (acc ++ [c]).
Proof.
  cbn [splitLoop]. rewrite matchAt_sectionSeparator.
  destruct (sepHere (c :: rest)); [|reflexivity].
  replace (q + 2 =? q) with false by (symmetry; apply Nat.eqb_neq; lia).
  replace (q + 2 - q - 1) with 1 by lia. reflexivity.
Qed.

(** The index only serves to compute the end of a match. *)
Lemma splitLoop_sep_index (rest : jsstring) :
  forall q q' skip acc,
    splitLoop sectionSeparator q rest skip acc =
    splitLoop sectionSeparator q' rest skip acc.
Proof.
  induction rest as [|c rest IH]; intros q q' skip acc; [reflexivity|].
  destruct skip as [|skip].
  - rewrite !splitLoop_sep_step.
    rewrite (IH (S q) (S q') 1 []), (IH (S q) (S q') 0 (acc ++ [c])). reflexivity.
  - cbn [splitLoop]. apply IH.
Qed.

Lemma split_sep_loop (s : jsstring) :
  split sectionSeparator s = splitLoop sectionSeparator 0 s 0 [].
Proof. destruct s; reflexivity. Qed.

Lemma splitLoop_not_nil (re : RegExp) (rest : jsstring) :
  forall q skip acc, splitLoop re q rest skip acc <> [].
Proof.
  induction rest as [|c rest IH]; intros q skip acc; cbn [splitLoop]; [discriminate|].
  destruct skip; [|apply IH].
  destruct (matchAt re q (c :: rest)) as [[e cap]|]; [|apply IH].
  destruct (e =? q); [destruct acc; [apply IH | discriminate] | discriminate].
Qed.

(** Each piece of a split is a piece of the input: it continues [acc] with
    the units that follow the skipped ones, or lies further on. *)
Lemma splitLoop_infix (re : RegExp) (rest : jsstring) :
  forall q skip acc x,
    In x (splitLoop re q rest skip acc) ->
    (exists x' v, x = acc ++ x' /\ skipn skip rest = x' ++ v) \/
    (exists u v, rest = u ++ x ++ v).
Proof.
  induction rest as [|c rest IH]; intros q skip acc x H; cbn [splitLoop] in H.
  - destruct H as [H|[]]. subst x. left. exists [], [].
    rewrite app_nil_r. split; [reflexivity | destruct skip; reflexivity].
  - destruct skip as [|skip].
    + assert (Hpush : forall a, In x (splitLoop re (S q) rest 0 (a ++ [c])) ->
                (exists x' v, x = a ++ x' /\ c :: rest = x' ++ v) \/
                (exists u v, c :: rest = u ++ x ++ v)).
      { intros a Ha. destruct (IH _ _ _ _ Ha) as [[x' [v [E1 E2]]]|[u [v E]]].
        - left. exists (c :: x'), v. cbn [skipn] in E2. subst.
          rewrite <- app_assoc. split; reflexivity.
        - right. exists (c :: u), v. subst. reflexivity. }
      assert (Hnew : forall k, In x (splitLoop re (S q) rest k []) ->
                exists u v, c :: rest = u ++ x ++ v).
      { intros k Hk. destruct (IH _ _ _ _ Hk) as [[x' [v [E1 E2]]]|[u [v E]]].
        - cbn [app] in E1. subst x'. exists (c :: firstn k rest), v.
          cbn [app]. rewrite <- E2, firstn_skipn. reflexivity.
        - exists (c :: u), v. subst. reflexivity. }
      cbn [skipn].
      destruct (matchAt re q (c :: rest)) as [[e cap]|]; [|apply Hpush; exact H].
      destruct (e =? q).
      * destruct acc as [|a acc'].
        -- apply (Hpush []). exact H.
        -- destruct H as [H|H].
           ++ subst x. left. exists [], (c :: rest). rewrite app_nil_r. split; reflexivity.
           ++ right. destruct (IH _ _ _ _ H) as [[x' [v [E1 E2]]]|[u [v E]]].
              ** exists [], v. cbn [skipn] in E2. subst. reflexivity.
              ** exists (c :: u), v. subst. reflexivity.
      * destruct H as [H|H].
        -- subst x. left. exists [], (c :: rest). rewrite app_nil_r. split; reflexivity.
        -- right. apply (Hnew _ H).
    + cbn [skipn]. destruct (IH _ _ _ _ H) as [[x' [v [E1 E2]]]|[u [v E]]].
      * left. eauto.
      * right. exists (c :: u), v. subst. reflexivity.
Qed.

Lemma split_infix (re : RegExp) (s x : jsstring) :
  In x (split re s) -> exists u v, s = u ++ x ++ v.
Proof.
  intros H. destruct s as [|c s].
  - unfold split in H. destruct (matchAt re 0 []); [destruct H|].
    destruct H as [H|[]]. subst x. exists [], []. reflexivity.
  - unfold split in H. apply splitLoop_infix in H.
    destruct H as [[x' [v [E1 E2]]]|H]; [|exact H].
    exists [], v. cbn [app skipn] in *. subst. exact E2.
Qed.

(** Joining the sections with the two newlines gives the input back. *)
Lemma joinWith_cons (sep x : jsstring) (l : list jsstring) :
  l <> [] -> joinWith sep (x :: l) = x ++ sep ++ joinWith sep l.
Proof. destruct l; [congruence | reflexivity]. Qed.

Lemma sepHere_inv (rest : jsstring) :
  sepHere rest = true -> exists t, rest = NL :: NL :: t /\ isMarker t = true.
Proof.
  destruct rest as [|a [|b t]]; try discriminate. cbn [sepHere]. intros H.
  apply andb_prop in H. destruct H as [H Hm]. apply andb_prop in H.
  destruct H as [Ha Hb]. apply N.eqb_eq in Ha, Hb. subst. eauto.
Qed.

Lemma splitLoop_sep_join (rest : jsstring) :
  forall q skip acc,
    joinWith [NL; NL] (splitLoop sectionSeparator q rest skip acc) =
    acc ++ skipn skip rest.
Proof.
  induction rest as [|c rest IH]; intros q skip acc.
  - cbn [splitLoop joinWith]. destruct skip; rewrite app_nil_r; reflexivity.
  - destruct skip as [|skip].
    + rewrite splitLoop_sep_step. destruct (sepHere (c :: rest)) eqn:Hs.
      * rewrite joinWith_cons by apply splitLoop_not_nil.
        rewrite IH. apply sepHere_inv in Hs. destruct Hs as [t [E _]].
        inversion E; subst. reflexivity.
      * rewrite IH. rewrite <- app_assoc. reflexivity.
    + cbn [splitLoop skipn]. apply IH.
Qed.

Lemma split_sep_join (text : jsstring) :
  joinWith [NL; NL] (split sectionSeparator text) = text.
Proof. rewrite split_sep_loop, splitLoop_sep_join. reflexivity. Qed.

(** A marker does not reach over a newline. *)
Lemma afterRun_digits_newline (t X : jsstring) :
  match afterRun isDigit (t ++ NL :: X) with
  | x :: _ => (x =? 46)%N
  | [] => false
  end =
  match afterRun isDigit t with
  | x :: _ => (x =? 46)%N
  | [] => false
  end.
Proof.
  induction t as [|x t IH]; [reflexivity|].
  cbn [app afterRun]. destruct (isDigit x); [exact IH | reflexivity].
Qed.

Lemma digitsDot_newline (t X : jsstring) :
  digitsDot (t ++ NL :: X) = digitsDot t.
Proof.
  destruct t as [|d t]; [reflexivity|].
  cbn [app digitsDot]. rewrite afterRun_digits_newline. reflexivity.
Qed.

Lemma stripPrefix_newline (p t X : jsstring) :
  forallb (fun c => negb (c =? NL)%N) p = true ->
  match stripPrefix false p (t ++ NL :: X) with Some _ => true | None => false end =
  match stripPrefix false p t with Some _ => true | None => false end.
Proof.
  revert t. induction p as [|c p IH]; intros t Hp; [reflexivity|].
  cbn [forallb] in Hp. apply andb_prop in Hp. destruct Hp as [Hc Hp].
  destruct t as [|x t]; cbn [app stripPrefix].
  - rewrite charMatches_exact. apply negb_true_iff in Hc. rewrite Hc. reflexivity.
  - destruct (charMatches false c x); [apply IH; exact Hp | reflexivity].
Qed.

Lemma isMarker_newline (t X : jsstring) : isMarker (t ++ NL :: X) = isMarker t.
Proof.
  unfold isMarker, startsWith.
  rewrite digitsDot_newline, !stripPrefix_newline by reflexivity. reflexivity.
Qed.

Lemma sepHere_app (t B : jsstring) :
  t <> [] -> sepHere (t ++ NL :: NL :: B) = sepHere t.
Proof.
  intros Ht. destruct t as [|a [|b t]]; [congruence| |].
  - cbn [app sepHere]. pose proof (isMarker_newline [] B) as H.
    cbn [app] in H. rewrite H. apply andb_false_r.
  - cbn [app sepHere]. rewrite isMarker_newline. reflexivity.
Qed.

(** Splitting a text that continues with a boundary and a chunk [B] splits
    the text before the boundary and [B] on their own. *)
Lemma splitLoop_sep_app (B : jsstring) (HB : isMarker B = true) (A : jsstring) :
  forall q skip acc,
    skip <= length A ->
    splitLoop sectionSeparator q (A ++ NL :: NL :: B) skip acc =
    splitLoop sectionSeparator q A skip acc ++ splitLoop sectionSeparator 0 B 0 [].
Proof.
  induction A as [|c A IH]; intros q skip acc Hskip.
  - cbn [length] in Hskip. assert (skip = 0) by lia. subst skip.
    cbn [app]. rewrite splitLoop_sep_step. cbn [sepHere].
    rewrite !N.eqb_refl, HB. cbn [andb splitLoop app].
    rewrite (splitLoop_sep_index B (S (S q)) 0). reflexivity.
  - destruct skip as [|skip].
    + rewrite <- app_comm_cons, !splitLoop_sep_step.
      rewrite app_comm_cons, sepHere_app by discriminate.
      destruct (sepHere (c :: A)) eqn:Hs.
      * rewrite IH; [reflexivity|].
        apply sepHere_inv in Hs. destruct Hs as [t [E _]].
        inversion E; subst. cbn [length]. lia.
      * apply IH. lia.
    + rewrite <- app_comm_cons. cbn [splitLoop]. apply IH.
      cbn [length] in Hskip. lia.
Qed.

Lemma boundaryBefore_marker (B : jsstring) : boundaryBefore B = isMarker B.
Proof.
  unfold boundaryBefore. rewrite matchAt_sectionSeparator.
  cbn [app sepHere]. rewrite !N.eqb_refl. cbn [andb].
  destruct (isMarker B); reflexivity.
Qed.

Lemma split_sep_app (A B : jsstring) :
  boundaryBefore B = true ->
  split sectionSeparator (A ++ [NL; NL] ++ B) =
  split sectionSeparator A ++ split sectionSeparator B.
Proof.
  rewrite boundaryBefore_marker.
  intros HB. rewrite !split_sep_loop. cbn [app].
  apply splitLoop_sep_app; [exact HB | lia].
Qed.

(** ** Facts about the parser *)

(** A labelled-field pattern that matches has filled its group. *)
Lemma matchAt_labelled_capture (l1 l2 l3 : string) (n : nat) (rest : jsstring)
    (e : nat) (cap : option jsstring) :
  matchAt (labelledRe l1 l2 l3) n rest = Some (e, cap) -> cap <> None.
Proof.
  unfold matchAt, labelledRe. cbn [source ignoreCase]. intros E.
  do 3 (rewrite matcher_Seq in E; apply matcher_through_k in E;
        destruct E as [? [? [? E]]]; cbv beta in E).
  change (matcher true (Group ?r) ?k ?n ?s ?c)
    with (matcher true r (fun n' rest' _ => k n' rest' (Some (firstn (n' - n) s))) n s c)
    in E.
  apply matcher_through_k in E. destruct E as [? [? [? E]]].
  inversion E. discriminate.
Qed.

Lemma exec_labelled_capture (l1 l2 l3 : string) (rest : jsstring) :
  forall n b e cap,
    execFrom (labelledRe l1 l2 l3) n rest = Some (b, e, cap) -> cap <> None.
Proof.
  induction rest as [|x rest IH]; intros n b e cap H; cbn [execFrom] in H.
  - destruct (matchAt (labelledRe l1 l2 l3) n []) as [[e' cap']|] eqn:E; [|discriminate].
    inversion H; subst. eapply matchAt_labelled_capture. exact E.
  - destruct (matchAt (labelledRe l1 l2 l3) n (x :: rest)) as [[e' cap']|] eqn:E.
    + inversion H; subst. eapply matchAt_labelled_capture. exact E.
    + eapply IH. exact H.
Qed.

Lemma extractField_labelled (l1 l2 l3 : string) (section : jsstring) :
  extractField (labelledRe l1 l2 l3) section =
  Ok (fieldOf (labelledRe l1 l2 l3) section).
Proof.
  unfold extractField, fieldOf, exec.
  destruct (execFrom (labelledRe l1 l2 l3) 0 section) as [[[b e] cap]|] eqn:E;
    [|reflexivity].
  destruct cap; [reflexivity|].
  apply exec_labelled_capture in E. congruence.
Qed.

Lemma longEnough_not_blank (section : jsstring) :
  longEnough section = true -> allWs section = false.
Proof.
  unfold longEnough. intros H. apply Nat.ltb_lt in H.
  destruct (allWs section) eqn:E; [|reflexivity].
  apply trim_nil_iff in E. rewrite E in H. cbn in H. lia.
Qed.

(** The loop pushes one record for each section that is long enough, in
    order, and throws on none. *)
Lemma parseSections_records (sections : list jsstring) :
  forall grants,
    parseSections sections grants =
    Ok (grants ++ map recordOf (filter longEnough sections)).
Proof.
  induction sections as [|section more IH]; intros grants; cbn [parseSections filter map].
  - rewrite app_nil_r. reflexivity.
  - fold (longEnough section). destruct (longEnough section) eqn:Hl; [|apply IH].
    destruct (lines_nonempty section (longEnough_not_blank section Hl))
      as [l [ls Hlines]].
    unfold extractOrganization, extractAmount, extractDeadline,
      organizationRe, amountRe, deadlineRe.
    rewrite !extractField_labelled. rewrite Hlines.
    cbn [length Nat.ltb Nat.leb nth_error extractTitle bind].
    rewrite IH. cbn [map]. rewrite <- app_assoc. cbn [app].
    unfold recordOf, titleOf, organizationRe, amountRe, deadlineRe.
    rewrite Hlines. reflexivity.
Qed.

Lemma parseGrantText_records (text : jsstring) :
  parseGrantText text =
  Ok (map recordOf (filter longEnough (split sectionSeparator text))).
Proof. unfold parseGrantText. rewrite parseSections_records. reflexivity. Qed.

(** ** Facts about the labelled-field patterns *)

Lemma stripPrefix_app (ic : bool) (p p' s : jsstring) :
  stripPrefix ic (p ++ p') s =
  match stripPrefix ic p s with
  | Some s' => stripPrefix ic p' s'
  | None => None
  end.
Proof.
  revert s. induction p as [|c p IH]; intros s; [reflexivity|].
  cbn [app stripPrefix]. destruct s as [|x s]; [reflexivity|].
  destruct (charMatches ic c x); [apply IH | reflexivity].
Qed.

Lemma matcher_label (l : string) (n : nat) (s : jsstring) :
  matcher true (Lit l)
    (fun n' rest' cap' =>
       matcher true (Seq (Lit ":") valueRe) (fun n'' _ cap'' => Some (n'', cap''))
         n' rest' cap') n s None =
  attempt l n s.
Proof.
  unfold Lit, attempt, afterLabel. rewrite matcher_chars, stripPrefix_app.
  destruct (stripPrefix true (js l) s) as [s'|]; [|reflexivity].
  rewrite matcher_Seq, matcher_chars. reflexivity.
Qed.

(** The alternatives are tried in the order of the pattern. *)
Lemma matchAt_labelled (l1 l2 l3 : string) (n : nat) (s : jsstring) :
  matchAt (labelledRe l1 l2 l3) n s =
  match attempt l1 n s with
  | Some res => Some res
  | None =>
      match attempt l2 n s with
      | Some res => Some res
      | None => attempt l3 n s
      end
  end.
Proof.
  unfold matchAt, labelledRe. cbn [source ignoreCase]. fold valueRe.
  rewrite matcher_Seq, !matcher_Alt, !matcher_label. reflexivity.
Qed.

Lemma firstn_run (p : code -> bool) (s : jsstring) :
  firstn (length (run p s)) s = run p s.
Proof.
  induction s as [|x s IH]; [reflexivity|].
  cbn [run]. destruct (p x); [cbn [length firstn]; rewrite IH|]; reflexivity.
Qed.

Lemma trim_ws_cons (c : code) (s : jsstring) :
  isWhiteSpace c = true -> trim (c :: s) = trim s.
Proof. intros H. unfold trim. cbn [trimStart]. rewrite H. reflexivity. Qed.

(** When the rest of a line is not blank, the white space skipped by [\s*]
    lies on that line and the group starts at its first visible unit. *)
Lemma restOfLine_afterRun (r : jsstring) :
  allWs (restOfLine r) = false ->
  trim (restOfLine (afterRun isWhiteSpace r)) = trim (restOfLine r) /\
  exists x y, afterRun isWhiteSpace r = x :: y /\ isWhiteSpace x = false.
Proof.
  induction r as [|c r IH]; intros H; [discriminate|].
  unfold restOfLine in *. cbn [run afterRun] in *.
  destruct (isWhiteSpace c) eqn:Hc.
  - destruct (notNewline c); [|discriminate].
    cbn [allWs forallb] in H. rewrite Hc in H. cbn [andb] in H.
    destruct (IH H) as [E X]. split; [|exact X].
    rewrite E. symmetry. apply trim_ws_cons. exact Hc.
  - split; [reflexivity|]. exists c, r. split; [reflexivity | exact Hc].
Qed.

Lemma nonws_notNewline (x : code) : isWhiteSpace x = false -> notNewline x = true.
Proof.
  intros H. unfold notNewline. destruct (x =? NL)%N eqn:E; [|reflexivity].
  apply N.eqb_eq in E. subst x. discriminate.
Qed.

Lemma valueMatch_value (n : nat) (r : jsstring) :
  allWs (restOfLine r) = false ->
  exists e m1, valueMatch n r = Some (e, Some m1) /\ trim m1 = trim (restOfLine r).
Proof.
  intros H. destruct (restOfLine_afterRun r H) as [E [x [y [Ha Hx]]]].
  unfold valueMatch, valueRe. rewrite matcher_Seq.
  exists (S (n + length (run isWhiteSpace r)) + length (run notNewline y)),
         (x :: run notNewline y).
  split.
  - cbn [matcher]. apply starLoop_first.
    change (classMem ClassSpace) with isWhiteSpace. rewrite Ha.
    unfold Plus. cbn [matcher classMem].
    change (negb (x =? NL)%N) with (notNewline x).
    rewrite (nonws_notNewline x Hx).
    apply starLoop_first. change (classMem ClassNotNewline) with notNewline.
    replace (S (n + length (run isWhiteSpace r)) + length (run notNewline y)
             - (n + length (run isWhiteSpace r)))
      with (S (length (run notNewline y))) by lia.
    cbn [firstn]. rewrite firstn_run. reflexivity.
  - rewrite <- E, Ha. unfold restOfLine. cbn [run].
    rewrite (nonws_notNewline x Hx). reflexivity.
Qed.

Lemma matchAt_labelled_none (l1 l2 l3 : string) (n : nat) (s : jsstring) :
  firstLabel [l1; l2; l3] s = None -> matchAt (labelledRe l1 l2 l3) n s = None.
Proof.
  rewrite matchAt_labelled. unfold attempt. cbn [firstLabel].
  destruct (afterLabel l1 s); [discriminate|].
  destruct (afterLabel l2 s); [discriminate|].
  destruct (afterLabel l3 s); [discriminate | reflexivity].
Qed.

Lemma matchAt_labelled_value (l1 l2 l3 : string) (n : nat) (s r : jsstring) :
  firstLabel [l1; l2; l3] s = Some r ->
  allWs (restOfLine r) = false ->
  exists e m1,
    matchAt (labelledRe l1 l2 l3) n s = Some (e, Some m1) /\
    trim m1 = trim (restOfLine r).
Proof.
  intros Hf Hr. rewrite matchAt_labelled. unfold attempt. cbn [firstLabel] in Hf.
  destruct (afterLabel l1 s) as [r1|].
  { inversion Hf; subst r1.
    destruct (valueMatch_value (n + length (js l1) + 1) r Hr) as [e [m1 [E T]]].
    rewrite E. eauto. }
  destruct (afterLabel l2 s) as [r2|].
  { inversion Hf; subst r2.
    destruct (valueMatch_value (n + length (js l2) + 1) r Hr) as [e [m1 [E T]]].
    rewrite E. eauto. }
  destruct (afterLabel l3 s) as [r3|]; [|discriminate].
  inversion Hf; subst r3.
  destruct (valueMatch_value (n + length (js l3) + 1) r Hr) as [e [m1 [E T]]].
  rewrite E. eauto.
Qed.

(** The pattern finds nothing where no label variant with a colon occurs,
    and finds the rest of the first labelled line when that is not blank. *)
Lemma fieldOf_spec (l1 l2 l3 : string) (text : jsstring) :
  (spec_extractField [l1; l2; l3] text = None ->
   fieldOf (labelledRe l1 l2 l3) text = None) /\
  (forall v, spec_extractField [l1; l2; l3] text = Some v -> v <> [] ->
   fieldOf (labelledRe l1 l2 l3) text = Some v).
Proof.
  unfold fieldOf, exec. generalize 0 as n.
  induction text as [|x text IH]; intros n.
  - cbn [spec_extractField execFrom].
    destruct (firstLabel [l1; l2; l3] []) as [r|] eqn:Hf.
    + split; [discriminate|]. intros v Hv Hne. inversion Hv; subst v.
      assert (Hr : allWs (restOfLine r) = false).
      { destruct (allWs (restOfLine r)) eqn:Ha; [|reflexivity].
        apply trim_nil_iff in Ha. congruence. }
      destruct (matchAt_labelled_value l1 l2 l3 n [] Hf Hr) as [e [m1 [E T]]].
      rewrite E, T. reflexivity.
    + rewrite (matchAt_labelled_none l1 l2 l3 n [] Hf).
      split; [reflexivity | discriminate].
  - cbn [spec_extractField execFrom].
    destruct (firstLabel [l1; l2; l3] (x :: text)) as [r|] eqn:Hf.
    + split; [discriminate|]. intros v Hv Hne. inversion Hv; subst v.
      assert (Hr : allWs (restOfLine r) = false).
      { destruct (allWs (restOfLine r)) eqn:Ha; [|reflexivity].
        apply trim_nil_iff in Ha. congruence. }
      destruct (matchAt_labelled_value l1 l2 l3 n (x :: text) Hf Hr) as [e [m1 [E T]]].
      rewrite E, T. reflexivity.
    + rewrite (matchAt_labelled_none l1 l2 l3 n (x :: text) Hf).
      apply IH.
Qed.

(** ** Facts about the grant subsections *)

Lemma truthy_orElse (a b : option jsstring) :
  truthy (orElse a b) = truthy a || truthy b.
Proof. unfold orElse. destruct (truthy a) eqn:E; [exact E | reflexivity]. Qed.

Lemma pushGrant_subsection (sections : list Block) (index : nat) (g : GrantRecord) :
  pushGrant sections index g = sections ++ subsection index g.
Proof.
  unfold pushGrant, subsection, rowsOf, rowOf, attributeTable.
  rewrite !truthy_orElse.
  destruct (truthy (organization g)), (truthy (amount g)), (truthy (deadline g));
    cbn [orb app]; rewrite <- ?app_assoc; reflexivity.
Qed.

Lemma forEachGrant_subsections (grants : list GrantRecord) :
  forall index sections,
    forEachGrant grants index sections = sections ++ subsectionsFrom index grants.
Proof.
  induction grants as [|g more IH]; intros index sections; cbn [forEachGrant subsectionsFrom].
  - rewrite app_nil_r. reflexivity.
  - rewrite IH, pushGrant_subsection, <- app_assoc. reflexivity.
Qed.

Lemma headingTexts_app (h : HeadingLevel) (x y : list Block) :
  headingTexts h (x ++ y) = headingTexts h x ++ headingTexts h y.
Proof.
  induction x as [|b x IH]; [reflexivity|].
  cbn [app headingTexts]. destruct b as [p|t]; [|exact IH].
  destruct (heading p) as [h'|]; [|exact IH].
  destruct (sameLevel h h'); [cbn [app]; rewrite IH; reflexivity | exact IH].
Qed.

Lemma headingTexts_subsection (h : HeadingLevel) (index : nat) (g : GrantRecord) :
  headingTexts h (subsection index g) =
  if sameLevel h HEADING_3 then [grantHeadingText index g] else [].
Proof.
  unfold subsection, attributeTable.
  destruct (truthy (organization g) || truthy (amount g) || truthy (deadline g));
    cbn; rewrite app_nil_r; destruct (sameLevel h HEADING_3); reflexivity.
Qed.

Lemma headingTexts_subsections (h : HeadingLevel) (grants : list GrantRecord) :
  forall index,
    headingTexts h (subsectionsFrom index grants) =
    if sameLevel h HEADING_3 then headingsFrom index grants else [].
Proof.
  induction grants as [|g more IH]; intros index; cbn [subsectionsFrom headingsFrom].
  - destruct (sameLevel h HEADING_3); reflexivity.
  - rewrite headingTexts_app, headingTexts_subsection, IH.
    destruct (sameLevel h HEADING_3); reflexivity.
Qed.

Lemma length_headingsFrom (grants : list GrantRecord) :
  forall index, length (headingsFrom index grants) = length grants.
Proof.
  induction grants as [|g more IH]; intros index; cbn [headingsFrom length];
    [reflexivity | rewrite IH; reflexivity].
Qed.

Lemma map_raw_recordOf (l : list jsstring) : map raw (map recordOf l) = l.
Proof.
  induction l as [|x l IH]; [reflexivity|]. cbn [map]. rewrite IH. reflexivity.
Qed.

(** ** The parser *)

(** C1: the example of the specification parses to exactly one record, with
    organization "XYZ Corp", amount "$10,000", deadline "2026-01-01" and
    title "Foundation ABC". *)
Theorem parse_c1_example :
  exists g,
    parseGrantText c1_input = Ok [g] /\
    organization g = Some (js "XYZ Corp") /\
    amount g = Some (js "$10,000") /\
    deadline g = Some (js "2026-01-01") /\
    title g = Some (js "Foundation ABC").
Proof.
  eexists. split; [vm_compute; reflexivity|].
  repeat split; vm_compute; reflexivity.
Qed.

(** C2, amended: the parser keeps exactly the candidate sections whose
    trimmed length is more than 50 units.  A text whose trimmed length is
    under 50 gives no record, and a candidate section is the raw text of a
    record exactly when its trimmed length exceeds 50. *)
Theorem parse_keeps_sections_over_fifty (text : jsstring) :
  exists grants,
    parseGrantText text = Ok grants /\
    (length (trim text) < 50 -> grants = []) /\
    (forall section,
       In section (split sectionSeparator text) ->
       (In section (map raw grants) <-> 50 < length (trim section))).
Proof.
  eexists. split; [apply parseGrantText_records|]. split.
  - intros Hshort.
    assert (Hnone : forall l,
              (forall x, In x l -> exists u v, text = u ++ x ++ v) ->
              filter longEnough l = []).
    { induction l as [|x l IH]; intros Hl; [reflexivity|].
      cbn [filter]. destruct (longEnough x) eqn:Hx.
      - exfalso. unfold longEnough in Hx. apply Nat.ltb_lt in Hx.
        destruct (Hl x (or_introl eq_refl)) as [u [v E]].
        pose proof (length_trim_infix u x v) as Hle. rewrite <- E in Hle. lia.
      - apply IH. intros y Hy. apply Hl. right. exact Hy. }
    rewrite Hnone; [reflexivity|].
    intros x Hx. eapply split_infix. exact Hx.
  - intros section Hin. rewrite map_raw_recordOf, filter_In.
    unfold longEnough. rewrite Nat.ltb_lt. tauto.
Qed.

(** C6: the records come in the order of the sections of the text, one
    record for one whole section: the raw texts of the records are the
    sections that pass the length test, in order, and the sections joined by
    the two newlines are the text.  When the two newlines in front of a
    chunk [B] are a section boundary, parsing [A], the two newlines and [B]
    gives the records of [A] followed by the records of [B]. *)
Theorem parse_order_and_concatenation :
  (forall text,
     exists grants,
       parseGrantText text = Ok grants /\
       map raw grants = filter longEnough (split sectionSeparator text) /\
       joinWith [NL; NL] (split sectionSeparator text) = text) /\
  (forall A B,
     boundaryBefore B = true ->
     exists ra rb,
       parseGrantText A = Ok ra /\
       parseGrantText B = Ok rb /\
       parseGrantText (A ++ [NL; NL] ++ B) = Ok (ra ++ rb)).
Proof.
  split.
  - intros text. eexists. split; [apply parseGrantText_records|].
    split; [apply map_raw_recordOf | apply split_sep_join].
  - intros A B HB. do 2 eexists.
    split; [apply parseGrantText_records|].
    split; [apply parseGrantText_records|].
    rewrite parseGrantText_records, (split_sep_app A B HB), filter_app, map_app.
    reflexivity.
Qed.

(** C7, amended: where no label variant followed by a colon occurs in the
    section, the field is null; where the rest of the line of the first such
    occurrence is not blank, the field is the rest of that line, trimmed,
    whatever occurs later in the section. *)
Theorem extract_first_labelled_line (text : jsstring) :
  (spec_extractField organizationLabels text = None ->
   extractOrganization text = Ok None) /\
  (forall v, spec_extractField organizationLabels text = Some v -> v <> [] ->
   extractOrganization text = Ok (Some v)) /\
  (spec_extractField amountLabels text = None ->
   extractAmount text = Ok None) /\
  (forall v, spec_extractField amountLabels text = Some v -> v <> [] ->
   extractAmount text = Ok (Some v)) /\
  (spec_extractField deadlineLabels text = None ->
   extractDeadline text = Ok None) /\
  (forall v, spec_extractField deadlineLabels text = Some v -> v <> [] ->
   extractDeadline text = Ok (Some v)).
Proof.
  unfold extractOrganization, extractAmount, extractDeadline,
    organizationRe, amountRe, deadlineRe,
    organizationLabels, amountLabels, deadlineLabels.
  rewrite !extractField_labelled.
  destruct (fieldOf_spec "Foundation" "Organization" "Funder" text) as [O1 O2].
  destruct (fieldOf_spec "Amount" "Funding" "Grant Size" text) as [A1 A2].
  destruct (fieldOf_spec "Deadline" "Due" "Application Due" text) as [D1 D2].
  repeat split; intros; f_equal; auto.
Qed.

(** C8: the description of every record is the whole text of its section,
    a piece of the input taken as it stands. *)
Theorem parse_description_verbatim (text : jsstring) :
  exists grants,
    parseGrantText text = Ok grants /\
    Forall (fun g =>
              description g = raw g /\
              In (description g) (split sectionSeparator text) /\
              exists u v, text = u ++ description g ++ v) grants.
Proof.
  eexists. split; [apply parseGrantText_records|].
  apply Forall_forall. intros g Hg. apply in_map_iff in Hg.
  destruct Hg as [section [E Hin]]. subst g. cbn [description raw recordOf].
  apply filter_In in Hin. destruct Hin as [Hin _].
  split; [reflexivity|]. split; [exact Hin|].
  eapply split_infix. exact Hin.
Qed.

(** C9: the parser returns a list of records on every input string; no path
    of it throws. *)
Theorem parse_never_throws (text : jsstring) :
  exists grants, parseGrantText text = Ok grants.
Proof. eexists. apply parseGrantText_records. Qed.

(** C10: every record of the parser has a string as its title, never null;
    its heading falls back to "Grant Opportunity" exactly when that string
    is empty, and a first line that is only a list marker gives such an
    empty title. *)
Theorem parse_title_never_null :
  (forall text,
     exists grants,
       parseGrantText text = Ok grants /\
       Forall (fun g =>
                 exists t,
                   title g = Some t /\
                   forall index,
                     grantHeadingText index g =
                     numberToString (index + 1) ++ js ". "
                     ++ match t with [] => js "Grant Opportunity" | _ :: _ => t end)
              grants) /\
  (exists g,
     parseGrantText markerOnlyTitle = Ok [g] /\ title g = Some [] /\
     grantHeadingText 0 g = js "1. Grant Opportunity").
Proof.
  split.
  - intros text. eexists. split; [apply parseGrantText_records|].
    apply Forall_forall. intros g Hg. apply in_map_iff in Hg.
    destruct Hg as [section [E _]]. subst g.
    exists (titleOf section). split; [reflexivity|].
    intros index. unfold grantHeadingText. cbn [title recordOf truthy].
    destruct (titleOf section); reflexivity.
  - eexists. split; [vm_compute; reflexivity|].
    split; vm_compute; reflexivity.
Qed.

(** ** The report *)

(** C4, amended: createGrantSections emits, in array order and numbered
    from 1, one subsection for each record: a level-3 heading with the
    number, a period, a space and the title, or "Grant Opportunity" when the
    title is null or empty; then, exactly when one of organization, amount
    and deadline is a non-empty string, a table with one row for each field
    that is a non-empty string; then the paragraph of the description.  The
    level-3 headings are those of the records, one each, and the three
    grants of [threeGrants] give three headings numbered 1 to 3. *)
Theorem createGrantSections_subsections :
  (forall grants,
     createGrantSections grants = subsectionsFrom 0 grants /\
     headingTexts HEADING_3 (createGrantSections grants) = headingsFrom 0 grants /\
     length (headingTexts HEADING_3 (createGrantSections grants)) = length grants) /\
  (exists g1 g2 g3,
     parseGrantText threeGrants = Ok [g1; g2; g3] /\
     headingTexts HEADING_3 (createGrantSections [g1; g2; g3]) =
     [js "1. Alpha Fund"; js "2. Beta Award"; js "3. Gamma Giving"]).
Proof.
  split.
  - intros grants. unfold createGrantSections.
    rewrite forEachGrant_subsections. cbn [app].
    split; [reflexivity|].
    rewrite (headingTexts_subsections HEADING_3 grants 0). cbn [sameLevel].
    split; [reflexivity | apply length_headingsFrom].
  - do 3 eexists. split; vm_compute; reflexivity.
Qed.

Lemma headingTexts_parameters (ps : list ContextParameter) :
  headingTexts HEADING_2 (map parameterItem ps) = [].
Proof. induction ps as [|p ps IH]; [reflexivity | exact IH]. Qed.

Lemma headingTexts_organizationProfile (data : ReportData) :
  headingTexts HEADING_2 (organizationProfile data) =
  if truthy (orgDescription data) then [js "Organization Profile"] else [].
Proof.
  unfold organizationProfile. destruct (truthy (orgDescription data)); reflexivity.
Qed.

Lemma headingTexts_searchParameters (data : ReportData) :
  headingTexts HEADING_2 (searchParameters data) =
  if hasParameters data then [js "Search Parameters"] else [].
Proof.
  unfold searchParameters. destruct (hasParameters data); [|reflexivity].
  rewrite !headingTexts_app, headingTexts_parameters. reflexivity.
Qed.





(** ** The title of a line *)

Lemma skipn_run (p : code -> bool) (s : jsstring) :
  skipn (length (run p s)) s = afterRun p s.
Proof.
  induction s as [|x s IH]; [reflexivity|].
  cbn [run afterRun]. destruct (p x); [exact IH | reflexivity].
Qed.

Lemma stripPrefix_skipn (ic : bool) (p s r : jsstring) :
  stripPrefix ic p s = Some r -> skipn (length p) s = r.
Proof.
  revert s. induction p as [|c p IH]; intros s H; cbn [stripPrefix] in H.
  - inversion H. reflexivity.
  - destruct s as [|x s]; [discriminate|].
    destruct (charMatches ic c x); [|discriminate]. cbn [length skipn]. auto.
Qed.

(** A pattern that starts with [^] is tried at index 0 only. *)
Lemma execFrom_anchored (ic : bool) (r : Regex) (rest : jsstring) :
  forall n,
    execFrom {| source := Seq AssertStart r; ignoreCase := ic |} (S n) rest = None.
Proof.
  induction rest as [|x rest IH]; intros n; cbn [execFrom]; unfold matchAt;
    cbn [source ignoreCase matcher Nat.eqb]; [reflexivity | apply IH].
Qed.

Lemma exec_anchored (ic : bool) (r : Regex) (s : jsstring) :
  exec {| source := Seq AssertStart r; ignoreCase := ic |} s =
  match matcher ic r (fun n' _ cap => Some (n', cap)) 0 s None with
  | Some (e, cap) => Some (0, e, cap)
  | None => None
  end.
Proof.
  unfold exec. destruct s as [|x s]; cbn [execFrom]; unfold matchAt;
    cbn [source ignoreCase]; rewrite matcher_Seq; cbn [matcher Nat.eqb].
  - destruct (matcher ic r _ 0 [] None) as [[e cap]|]; reflexivity.
  - destruct (matcher ic r _ 0 (x :: s) None) as [[e cap]|]; [reflexivity|].
    apply execFrom_anchored.
Qed.

Lemma starLoop_total (p : code -> bool) (n : nat) (rest : jsstring)
    (cap : option jsstring) :
  starLoop p (fun n' _ => Some (n', cap)) n rest =
  Some (n + length (run p rest), cap).
Proof. apply starLoop_first. reflexivity. Qed.

Lemma replace_numbering (l : jsstring) :
  replaceWithEmpty numberingRe l = stripNumbering l.
Proof.
  unfold replaceWithEmpty, numberingRe, stripNumbering. rewrite exec_anchored.
  unfold Plus, Lit. rewrite !matcher_Seq.
  destruct l as [|d t]; [reflexivity|].
  cbn [matcher classMem digitsDot afterRun].
  destruct (isDigit d); cbn [andb]; [|reflexivity].
  rewrite starLoop_no_backtrack.
  - change (classMem ClassDigit) with isDigit.
    rewrite matcher_chars. cbn [js list_ascii_of_string map stripPrefix].
    destruct (afterRun isDigit t) as [|x r] eqn:Ha; [reflexivity|].
    rewrite (charMatches_exact _ x).
    change (N_of_ascii "."%char) with 46%N. rewrite (N.eqb_sym 46 x).
    destruct (x =? 46)%N; [|reflexivity].
    cbn [matcher]. change (classMem ClassSpace) with isWhiteSpace.
    rewrite starLoop_total. cbn [firstn app tl length].
    replace (1 + length (run isDigit t) + 1 + length (run isWhiteSpace r))
      with (S (length (run isWhiteSpace r) + 1 + length (run isDigit t))) by lia.
    cbn [skipn]. rewrite <- skipn_skipn, skipn_run, Ha.
    rewrite <- skipn_skipn. cbn [skipn]. apply skipn_run.
  - intros n' x r Hx. cbv beta. rewrite matcher_chars.
    cbn [js list_ascii_of_string map stripPrefix].
    rewrite (charMatches_exact _ x).
    change (N_of_ascii "."%char) with 46%N.
    rewrite (digit_not_dot x Hx). reflexivity.
Qed.

Lemma replace_word (p : string) (l : jsstring) :
  replaceWithEmpty
    {| source := Seq AssertStart (Seq (Lit p) (Star ClassSpace));
       ignoreCase := true |} l =
  stripWord p l.
Proof.
  unfold replaceWithEmpty, stripWord. rewrite exec_anchored.
  unfold Lit. rewrite matcher_Seq, matcher_chars.
  destruct (stripPrefix true (js p) l) as [r|] eqn:Hp; [|reflexivity].
  cbn [matcher]. change (classMem ClassSpace) with isWhiteSpace.
  rewrite starLoop_total. cbn [firstn app].
  replace (0 + length (js p) + length (run isWhiteSpace r))
    with (length (run isWhiteSpace r) + length (js p)) by lia.
  rewrite <- skipn_skipn, (stripPrefix_skipn _ _ _ Hp). apply skipn_run.
Qed.

(** X1: extractTitle removes, in this order, a leading list marker, a leading
    "Grant:" and a leading "Foundation:" in any case, each with the white
    space after it, and trims what is left; it changes nothing else of the
    line, and it throws on no string. *)
Theorem extractTitle_strips (l : jsstring) :
  extractTitle (Some l) =
  Ok (trim (stripWord "Foundation:" (stripWord "Grant:" (stripNumbering l)))).
Proof.
  unfold extractTitle, grantPrefixRe, foundationPrefixRe.
  rewrite replace_numbering, !replace_word. reflexivity.
Qed.

(** ** Sections have no boundary inside *)

Lemma stripPrefix_app_some (p t u r : jsstring) :
  stripPrefix false p t = Some r -> stripPrefix false p (t ++ u) = Some (r ++ u).
Proof.
  revert t. induction p as [|c p IH]; intros t H; cbn [stripPrefix] in *.
  - inversion H. reflexivity.
  - destruct t as [|x t]; [discriminate|]. cbn [app].
    destruct (charMatches false c x); [auto | discriminate].
Qed.

Lemma digitsDot_mono (t u : jsstring) :
  digitsDot t = true -> digitsDot (t ++ u) = true.
Proof.
  destruct t as [|d t]; [discriminate|]. cbn [app digitsDot].
  destruct (isDigit d); [|discriminate]. cbn [andb].
  induction t as [|x t IH]; [discriminate|].
  cbn [app afterRun]. destruct (isDigit x); [exact IH|]. intros H. exact H.
Qed.

Lemma isMarker_mono (t u : jsstring) :
  isMarker t = true -> isMarker (t ++ u) = true.
Proof.
  unfold isMarker, startsWith. intros H.
  destruct (digitsDot t) eqn:Hd.
  - rewrite (digitsDot_mono t u Hd). reflexivity.
  - cbn [orb] in H.
    destruct (stripPrefix false (js "Grant") t) as [r|] eqn:Hg.
    + rewrite (stripPrefix_app_some _ _ u Hg). rewrite orb_true_r. reflexivity.
    + cbn [orb] in H.
      destruct (stripPrefix false (js "Foundation") t) as [r|] eqn:Hf;
        [|discriminate].
      rewrite (stripPrefix_app_some _ _ u Hf). apply orb_true_r.
Qed.

(** A boundary at the head of a text is still one when the text goes on. *)
Lemma sepHere_mono (t u : jsstring) :
  sepHere t = true -> sepHere (t ++ u) = true.
Proof.
  destruct t as [|a [|b t]]; try discriminate. cbn [app sepHere]. intros H.
  apply andb_prop in H. destruct H as [H Hm]. rewrite H.
  rewrite (isMarker_mono t u Hm). reflexivity.
Qed.

Lemma noSep_tail (c : code) (s : jsstring) : noSep (c :: s) -> noSep s.
Proof. intros H u v E. apply (H (c :: u) v). rewrite E. reflexivity. Qed.

Lemma execFrom_sep_none (s : jsstring) :
  forall n, execFrom sectionSeparator n s = None <-> noSep s.
Proof.
  induction s as [|c s IH]; intros n; cbn [execFrom];
    rewrite matchAt_sectionSeparator.
  - cbn [sepHere]. split; [|reflexivity]. intros _ u v E.
    symmetry in E. apply app_eq_nil in E. destruct E; subst. reflexivity.
  - destruct (sepHere (c :: s)) eqn:Hs.
    + split; [discriminate|]. intros H. rewrite (H [] (c :: s) eq_refl) in Hs.
      discriminate.
    + rewrite IH. split.
      * intros H u v E. destruct u as [|x u]; cbn [app] in E.
        -- subst v. exact Hs.
        -- inversion E; subst. apply (H u v eq_refl).
      * apply noSep_tail.
Qed.

Lemma splitLoop_noSep (x : jsstring) :
  noSep x -> forall q acc, splitLoop sectionSeparator q x 0 acc = [acc ++ x].
Proof.
  induction x as [|c x IH]; intros H q acc.
  - cbn [splitLoop]. rewrite app_nil_r. reflexivity.
  - rewrite splitLoop_sep_step, (H [] (c :: x) eq_refl).
    rewrite (IH (noSep_tail H)), <- app_assoc. reflexivity.
Qed.

Lemma app_snoc_split (A : Type) (acc u v : list A) (c : A) :
  acc ++ [c] = u ++ v -> v <> [] ->
  exists v1, v = v1 ++ [c] /\ acc = u ++ v1.
Proof.
  intros E Hv. destruct (exists_last Hv) as [v1 [c' Ev]]. subst v.
  rewrite app_assoc in E. apply app_inj_tail in E. destruct E as [E1 E2].
  subst. exists v1. split; reflexivity.
Qed.

(** The pieces of a split hold no boundary, given that the units gathered
    so far start none with what is left of the input. *)
Lemma splitLoop_sections_noSep (rest : jsstring) :
  forall q skip acc,
    (forall u v, acc = u ++ v -> v <> [] ->
                 sepHere (v ++ skipn skip rest) = false) ->
    forall x, In x (splitLoop sectionSeparator q rest skip acc) -> noSep x.
Proof.
  induction rest as [|c rest IH]; intros q skip acc Hacc x Hx.
  - cbn [splitLoop] in Hx. destruct Hx as [Hx|[]]. subst x.
    intros u v E. destruct v as [|y v]; [reflexivity|].
    specialize (Hacc u (y :: v) E). rewrite skipn_nil, app_nil_r in Hacc.
    apply Hacc. discriminate.
  - destruct skip as [|skip].
    + rewrite splitLoop_sep_step in Hx. cbn [skipn] in Hacc.
      destruct (sepHere (c :: rest)) eqn:Hs.
      * destruct Hx as [Hx|Hx].
        -- subst x. intros u v E. destruct v as [|y v]; [reflexivity|].
           destruct (sepHere (y :: v)) eqn:Hv; [|reflexivity].
           assert (F : sepHere ((y :: v) ++ c :: rest) = false)
             by (apply (Hacc u (y :: v) E); discriminate).
           rewrite (sepHere_mono (y :: v) (c :: rest) Hv) in F. discriminate.
        -- apply (IH (S q) 1 [] ); [|exact Hx].
           intros u v E Hv. symmetry in E. apply app_eq_nil in E.
           destruct E; subst. congruence.
      * apply (IH (S q) 0 (acc ++ [c])); [|exact Hx].
        intros u v E Hv. cbn [skipn].
        destruct (app_snoc_split _ _ _ E Hv) as [v1 [Ev Ea]]. subst v.
        rewrite <- app_assoc. cbn [app].
        destruct v1 as [|y v1]; [exact Hs|].
        apply (Hacc u (y :: v1) Ea). discriminate.
    + cbn [splitLoop] in Hx. apply (IH (S q) skip acc); [|exact Hx].
      intros u v E Hv. apply (Hacc u v E Hv).
Qed.

Lemma split_sections_noSep (text x : jsstring) :
  In x (split sectionSeparator text) -> noSep x.
Proof.
  rewrite split_sep_loop. apply splitLoop_sections_noSep.
  intros u v E Hv. symmetry in E. apply app_eq_nil in E.
  destruct E; subst. congruence.
Qed.

(** X4: a text in which the separator matches nowhere is one section, and
    parsing it gives its record when it is long enough and nothing
    otherwise. *)
Theorem split_without_boundary (text : jsstring) :
  exec sectionSeparator text = None ->
  split sectionSeparator text = [text] /\
  parseGrantText text = Ok (if longEnough text then [recordOf text] else []).
Proof.
  intros H. apply execFrom_sep_none in H.
  assert (E : split sectionSeparator text = [text]).
  { rewrite split_sep_loop. apply (splitLoop_noSep H). }
  split; [exact E|]. rewrite parseGrantText_records, E. cbn [filter].
  destruct (longEnough text); reflexivity.
Qed.

(** X2: every section of a split is a single section of its own, and parsing
    the raw text of a record gives that record back and no other. *)
Theorem reparse_raw_gives_record (text : jsstring) (grants : list GrantRecord)
    (g : GrantRecord) :
  parseGrantText text = Ok grants ->
  In g grants ->
  split sectionSeparator (raw g) = [raw g] /\
  parseGrantText (raw g) = Ok [g].
Proof.
  rewrite parseGrantText_records. intros E Hg. inversion E; subst grants.
  apply in_map_iff in Hg. destruct Hg as [section [Eg Hin]]. subst g.
  apply filter_In in Hin. destruct Hin as [Hin Hl].
  cbn [raw recordOf].
  assert (Es : split sectionSeparator section = [section]).
  { rewrite split_sep_loop.
    apply splitLoop_noSep. apply (@split_sections_noSep text). exact Hin. }
  split; [exact Es|].
  rewrite parseGrantText_records, Es. cbn [filter]. rewrite Hl. reflexivity.
Qed.

(** The pieces after the first start with a marker. *)
Lemma splitLoop_sections_marker (rest : jsstring) :
  forall q skip acc,
    isMarker (hd [] (splitLoop sectionSeparator q rest skip acc)) =
    isMarker (acc ++ skipn skip rest) /\
    Forall (fun s => isMarker s = true)
           (tl (splitLoop sectionSeparator q rest skip acc)).
Proof.
  induction rest as [|c rest IH]; intros q skip acc.
  - cbn [splitLoop hd tl]. rewrite skipn_nil, app_nil_r.
    split; [reflexivity | constructor].
  - destruct skip as [|skip]; [|cbn [splitLoop skipn]; apply IH].
    rewrite splitLoop_sep_step. cbn [skipn].
    destruct (sepHere (c :: rest)) eqn:Hs.
    + apply sepHere_inv in Hs. destruct Hs as [t [E Hm]].
      inversion E; subst c rest. cbn [hd tl]. split.
      * symmetry. apply isMarker_newline.
      * destruct (IH (S q) 1 []) as [Hh Ht].
        cbn [skipn app] in Hh.
        destruct (splitLoop sectionSeparator (S q) (NL :: t) 1 []) as [|s ss] eqn:El.
        -- constructor.
        -- cbn [hd tl] in *. constructor; [congruence | exact Ht].
    + destruct (IH (S q) 0 (acc ++ [c])) as [Hh Ht]. cbn [skipn] in Hh.
      rewrite <- app_assoc in Hh. split; [exact Hh | exact Ht].
Qed.

(** X3: every section of a text after the first starts at a boundary: the
    separator matches at two newlines put in front of it. *)
Theorem later_sections_start_at_boundary (text : jsstring) :
  Forall (fun s => boundaryBefore s = true) (tl (split sectionSeparator text)).
Proof.
  rewrite split_sep_loop.
  destruct (splitLoop_sections_marker text 0 0 []) as [_ H].
  eapply Forall_impl; [|exact H].
  intros s Hs. rewrite boundaryBefore_marker. exact Hs.
Qed.

(** ** The values of a record are trimmed and lie on one line *)

Lemma length_trimStart_le (s : jsstring) : length (trimStart s) <= length s.
Proof.
  induction s as [|c s IH]; [reflexivity|].
  cbn [trimStart]. destruct (isWhiteSpace c); cbn [length]; lia.
Qed.

Lemma trimStart_idem (s : jsstring) : trimStart (trimStart s) = trimStart s.
Proof.
  induction s as [|c s IH]; [reflexivity|].
  cbn [trimStart]. destruct (isWhiteSpace c) eqn:Hc; [exact IH|].
  cbn [trimStart]. rewrite Hc. reflexivity.
Qed.

Lemma trimEnd_idem (s : jsstring) : trimEnd (trimEnd s) = trimEnd s.
Proof. unfold trimEnd. rewrite rev_involutive, trimStart_idem. reflexivity. Qed.

Lemma trimStart_trimEnd_fixed (y : jsstring) :
  trimStart y = y -> trimStart (trimEnd y) = trimEnd y.
Proof.
  destruct y as [|c y]; [reflexivity|]. intros H.
  assert (Hc : isWhiteSpace c = false).
  { destruct (isWhiteSpace c) eqn:Hc; [|reflexivity].
    cbn [trimStart] in H. rewrite Hc in H.
    pose proof (length_trimStart_le y) as L. rewrite H in L. cbn [length] in L. lia. }
  rewrite trimEnd_cons. cbn [allWs forallb]. rewrite Hc. cbn [andb trimStart].
  rewrite Hc. reflexivity.
Qed.

(** [trim] changes nothing on a trimmed string. *)
Lemma trim_idem (s : jsstring) : trim (trim s) = trim s.
Proof.
  unfold trim.
  rewrite (@trimStart_trimEnd_fixed (trimStart s) (trimStart_idem s)).
  apply trimEnd_idem.
Qed.

Lemma forallb_trimStart (p : code -> bool) (s : jsstring) :
  forallb p s = true -> forallb p (trimStart s) = true.
Proof.
  induction s as [|c s IH]; [reflexivity|]. intros H.
  cbn [trimStart]. destruct (isWhiteSpace c); [|exact H].
  cbn [forallb] in H. apply andb_prop in H. apply IH. apply H.
Qed.

Lemma forallb_rev (p : code -> bool) (s : jsstring) :
  forallb p (rev s) = forallb p s.
Proof.
  induction s as [|c s IH]; [reflexivity|].
  cbn [rev forallb]. rewrite forallb_app, IH. cbn [forallb].
  rewrite andb_true_r. apply andb_comm.
Qed.

Lemma forallb_trim (p : code -> bool) (s : jsstring) :
  forallb p s = true -> forallb p (trim s) = true.
Proof.
  intros H. unfold trim, trimEnd. rewrite forallb_rev.
  apply forallb_trimStart. rewrite forallb_rev.
  apply forallb_trimStart. exact H.
Qed.

Lemma forallb_firstn (p : code -> bool) (n : nat) (s : jsstring) :
  forallb p s = true -> forallb p (firstn n s) = true.
Proof.
  intros H. rewrite <- (firstn_skipn n s), forallb_app in H.
  apply andb_prop in H. apply H.
Qed.

Lemma forallb_skipn (p : code -> bool) (n : nat) (s : jsstring) :
  forallb p s = true -> forallb p (skipn n s) = true.
Proof.
  intros H. rewrite <- (firstn_skipn n s), forallb_app in H.
  apply andb_prop in H. apply H.
Qed.

Lemma forallb_replaceWithEmpty (p : code -> bool) (re : RegExp) (s : jsstring) :
  forallb p s = true -> forallb p (replaceWithEmpty re s) = true.
Proof.
  intros H. unfold replaceWithEmpty.
  destruct (exec re s) as [[[b e] cap]|]; [|exact H].
  rewrite forallb_app, forallb_firstn, forallb_skipn by exact H. reflexivity.
Qed.

(** A line of a split at the newlines holds no newline. *)
Lemma splitOnFrom_lines (s : jsstring) :
  forall acc l,
    forallb notNewline acc = true ->
    In l (splitOnFrom NL s acc) -> forallb notNewline l = true.
Proof.
  induction s as [|c s IH]; intros acc l Hacc Hl; cbn [splitOnFrom] in Hl.
  - destruct Hl as [Hl|[]]. subst l. exact Hacc.
  - destruct (c =? NL)%N eqn:Hc.
    + destruct Hl as [Hl|Hl]; [subst l; exact Hacc|].
      apply (IH [] l); [reflexivity | exact Hl].
    + apply (IH (acc ++ [c]) l); [|exact Hl].
      rewrite forallb_app, Hacc. cbn [forallb]. unfold notNewline.
      rewrite Hc. reflexivity.
Qed.

(** Every run accepted by the greedy loop is made of units of the class. *)
Lemma starLoop_inv (p : code -> bool) (k : nat -> jsstring -> option MatchResult)
    (rest : jsstring) :
  forall n res,
    starLoop p k n rest = Some res ->
    exists m, forallb p (firstn m rest) = true /\
              k (n + m) (skipn m rest) = Some res.
Proof.
  induction rest as [|x rest IH]; intros n res H; cbn [starLoop] in H.
  - exists 0. rewrite Nat.add_0_r. split; [reflexivity | exact H].
  - destruct (p x) eqn:Hp.
    + destruct (starLoop p k (S n) rest) as [res'|] eqn:E.
      * inversion H; subst res'. destruct (IH _ _ E) as [m [Hm Hk]].
        exists (S m). cbn [firstn forallb skipn]. rewrite Hp, Hm.
        rewrite Nat.add_succ_r. split; [reflexivity | exact Hk].
      * exists 0. rewrite Nat.add_0_r. split; [reflexivity | exact H].
    + exists 0. rewrite Nat.add_0_r. split; [reflexivity | exact H].
Qed.

Lemma valueMatch_capture (n : nat) (r : jsstring) (e : nat)
    (cap : option jsstring) :
  valueMatch n r = Some (e, cap) ->
  exists m1, cap = Some m1 /\ forallb notNewline m1 = true.
Proof.
  unfold valueMatch, valueRe. rewrite matcher_Seq. cbn [matcher]. intros H.
  apply starLoop_inv in H. destruct H as [m [_ H]].
  unfold Plus in H. cbn [matcher] in H.
  destruct (skipn m r) as [|x y]; [discriminate|].
  change (classMem ClassNotNewline) with notNewline in H.
  destruct (notNewline x) eqn:Hx; [|discriminate].
  apply starLoop_inv in H. destruct H as [m' [Hm' H]].
  replace (S (n + m) + m' - (n + m)) with (S m') in H by lia.
  inversion H; subst. eexists. split; [reflexivity|].
  cbn [firstn forallb]. rewrite Hx, Hm'. reflexivity.
Qed.

Lemma attempt_capture (l : string) (n : nat) (s : jsstring) (e : nat)
    (cap : option jsstring) :
  attempt l n s = Some (e, cap) ->
  exists m1, cap = Some m1 /\ forallb notNewline m1 = true.
Proof.
  unfold attempt. destruct (afterLabel l s); [|discriminate].
  apply valueMatch_capture.
Qed.

Lemma fieldOf_tidy (l1 l2 l3 : string) (section : jsstring) :
  tidy (fieldOf (labelledRe l1 l2 l3) section).
Proof.
  unfold fieldOf, exec. generalize 0 as n.
  induction section as [|x section IH]; intros n; cbn [execFrom];
    rewrite matchAt_labelled.
  - destruct (attempt l1 n []) as [[e cap]|] eqn:E1;
      [apply attempt_capture in E1|
       destruct (attempt l2 n []) as [[e cap]|] eqn:E2;
       [apply attempt_capture in E2|
        destruct (attempt l3 n []) as [[e cap]|] eqn:E3;
        [apply attempt_capture in E3 | exact I]]];
      match goal with
      | H : exists m1, _ |- _ =>
          destruct H as [m1 [Ec Hm]]; subst cap; cbn [tidy];
          split; [apply trim_idem | apply forallb_trim; exact Hm]
      end.
  - destruct (attempt l1 n (x :: section)) as [[e cap]|] eqn:E1;
      [apply attempt_capture in E1|
       destruct (attempt l2 n (x :: section)) as [[e cap]|] eqn:E2;
       [apply attempt_capture in E2|
        destruct (attempt l3 n (x :: section)) as [[e cap]|] eqn:E3;
        [apply attempt_capture in E3 | apply IH]]];
      match goal with
      | H : exists m1, _ |- _ =>
          destruct H as [m1 [Ec Hm]]; subst cap; cbn [tidy];
          split; [apply trim_idem | apply forallb_trim; exact Hm]
      end.
Qed.

Lemma titleOf_tidy (section : jsstring) : tidy (Some (titleOf section)).
Proof.
  cbn [tidy]. unfold titleOf. split; [apply trim_idem|].
  apply forallb_trim. do 3 apply forallb_replaceWithEmpty.
  destruct (filter nonBlank (splitOn NL section)) as [|l ls] eqn:E; [reflexivity|].
  cbn [hd]. apply (@splitOnFrom_lines section [] l); [reflexivity|].
  assert (Hin : In l (filter nonBlank (splitOn NL section)))
    by (rewrite E; left; reflexivity).
  apply filter_In in Hin. apply Hin.
Qed.

(** X5: the title and every field of a record of the parser is a trimmed
    string without a newline, or null. *)
Theorem parsed_values_tidy (text : jsstring) :
  exists grants,
    parseGrantText text = Ok grants /\
    Forall (fun g => tidy (title g) /\ tidy (organization g) /\
                     tidy (amount g) /\ tidy (deadline g)) grants.
Proof.
  eexists. split; [apply parseGrantText_records|].
  apply Forall_forall. intros g Hg. apply in_map_iff in Hg.
  destruct Hg as [section [E _]]. subst g.
  cbn [title organization amount deadline recordOf].
  unfold organizationRe, amountRe, deadlineRe.
  repeat split; try apply titleOf_tidy; try apply fieldOf_tidy;
    apply (titleOf_tidy section).
Qed.

(** ** The value of a field when the label's line is blank *)

Lemma afterRun_visible (r : jsstring) :
  allWs r = false ->
  exists x y, afterRun isWhiteSpace r = x :: y /\ isWhiteSpace x = false.
Proof.
  induction r as [|c r IH]; [discriminate|]. cbn [allWs forallb afterRun].
  destruct (isWhiteSpace c) eqn:Hc; cbn [andb]; [exact IH|].
  intros _. exists c, r. split; [reflexivity | exact Hc].
Qed.

(** White space after the colon is passed over, newlines included, up to
    the first visible unit; the group takes the line from there. *)
Lemma valueMatch_visible (n : nat) (r : jsstring) :
  allWs r = false ->
  exists e m1,
    valueMatch n r = Some (e, Some m1) /\ trim m1 = firstVisibleLine r.
Proof.
  intros H. destruct (afterRun_visible r H) as [x [y [Ha Hx]]].
  unfold valueMatch, valueRe, firstVisibleLine. rewrite matcher_Seq.
  exists (S (n + length (run isWhiteSpace r)) + length (run notNewline y)),
         (x :: run notNewline y).
  split.
  - cbn [matcher]. apply starLoop_first.
    change (classMem ClassSpace) with isWhiteSpace. rewrite Ha.
    unfold Plus. cbn [matcher classMem].
    change (negb (x =? NL)%N) with (notNewline x).
    rewrite (nonws_notNewline x Hx).
    apply starLoop_first. change (classMem ClassNotNewline) with notNewline.
    replace (S (n + length (run isWhiteSpace r)) + length (run notNewline y)
             - (n + length (run isWhiteSpace r)))
      with (S (length (run notNewline y))) by lia.
    cbn [firstn]. rewrite firstn_run. reflexivity.
  - rewrite Ha. unfold restOfLine. cbn [run].
    rewrite (nonws_notNewline x Hx). reflexivity.
Qed.

Lemma matchAt_labelled_visible (l1 l2 l3 : string) (n : nat) (s r : jsstring) :
  firstLabel [l1; l2; l3] s = Some r ->
  allWs r = false ->
  exists e m1,
    matchAt (labelledRe l1 l2 l3) n s = Some (e, Some m1) /\
    trim m1 = firstVisibleLine r.
Proof.
  intros Hf Hr. rewrite matchAt_labelled. unfold attempt. cbn [firstLabel] in Hf.
  destruct (afterLabel l1 s) as [r1|].
  { inversion Hf; subst r1.
    destruct (valueMatch_visible (n + length (js l1) + 1) r Hr) as [e [m1 [E T]]].
    rewrite E. eauto. }
  destruct (afterLabel l2 s) as [r2|].
  { inversion Hf; subst r2.
    destruct (valueMatch_visible (n + length (js l2) + 1) r Hr) as [e [m1 [E T]]].
    rewrite E. eauto. }
  destruct (afterLabel l3 s) as [r3|]; [|discriminate].
  inversion Hf; subst r3.
  destruct (valueMatch_visible (n + length (js l3) + 1) r Hr) as [e [m1 [E T]]].
  rewrite E. eauto.
Qed.

Lemma fieldOf_visible (l1 l2 l3 : string) (text r : jsstring) :
  firstLabelled [l1; l2; l3] text = Some r ->
  allWs r = false ->
  fieldOf (labelledRe l1 l2 l3) text = Some (firstVisibleLine r).
Proof.
  unfold fieldOf, exec. generalize 0 as n.
  induction text as [|x text IH]; intros n Hf Hr;
    cbn [firstLabelled] in Hf; cbn [execFrom].
  - destruct (firstLabel [l1; l2; l3] []) as [r'|] eqn:E; [|discriminate].
    inversion Hf; subst r'.
    destruct (matchAt_labelled_visible l1 l2 l3 n [] E Hr) as [e [m1 [M T]]].
    rewrite M, T. reflexivity.
  - destruct (firstLabel [l1; l2; l3] (x :: text)) as [r'|] eqn:E.
    + inversion Hf; subst r'.
      destruct (matchAt_labelled_visible l1 l2 l3 n (x :: text) E Hr)
        as [e [m1 [M T]]].
      rewrite M, T. reflexivity.
    + rewrite (matchAt_labelled_none l1 l2 l3 n (x :: text) E).
      apply IH; assumption.
Qed.

(** X6: when what follows the colon of the first labelled place holds a visible
    unit, on that line or on a later one, the field is the line of the
    first visible unit, trimmed. *)
Theorem extract_first_visible_line (text r : jsstring) :
  (firstLabelled organizationLabels text = Some r -> allWs r = false ->
   extractOrganization text = Ok (Some (firstVisibleLine r))) /\
  (firstLabelled amountLabels text = Some r -> allWs r = false ->
   extractAmount text = Ok (Some (firstVisibleLine r))) /\
  (firstLabelled deadlineLabels text = Some r -> allWs r = false ->
   extractDeadline text = Ok (Some (firstVisibleLine r))).
Proof.
  unfold extractOrganization, extractAmount, extractDeadline,
    organizationRe, amountRe, deadlineRe,
    organizationLabels, amountLabels, deadlineLabels.
  rewrite !extractField_labelled.
  repeat split; intros Hf Hr; f_equal; apply fieldOf_visible; assumption.
Qed.

(** ** The layout of the grant subsections *)

Lemma tablesOf_app (x y : list Block) :
  tablesOf (x ++ y) = tablesOf x ++ tablesOf y.
Proof.
  induction x as [|b x IH]; [reflexivity|].
  destruct b; cbn [app tablesOf]; rewrite IH; reflexivity.
Qed.

Lemma bulletsOf_app (x y : list Block) :
  bulletsOf (x ++ y) = bulletsOf x ++ bulletsOf y.
Proof.
  induction x as [|b x IH]; [reflexivity|].
  destruct b as [p|t]; cbn [app bulletsOf]; [|exact IH].
  destruct (numbering p); [cbn [app]; rewrite IH; reflexivity | exact IH].
Qed.

Lemma length_rowsOf (g : GrantRecord) :
  hasField g = true -> 1 <= length (rowsOf g) <= 3.
Proof.
  unfold hasField, rowsOf, rowOf.
  destruct (truthy (organization g)), (truthy (amount g)), (truthy (deadline g));
    cbn; intros H; try discriminate; lia.
Qed.

Lemma rowsOf_widths (g : GrantRecord) :
  Forall (fun r => length (cells r) = 2 /\
                   map cellWidth (cells r) = [2800; 6560]%N) (rowsOf g).
Proof.
  unfold rowsOf, rowOf.
  destruct (truthy (organization g)), (truthy (amount g)), (truthy (deadline g));
    cbn [app]; repeat constructor.
Qed.

Lemma subsectionsFrom_layout (grants : list GrantRecord) :
  forall index,
    length (subsectionsFrom index grants)
    = 2 * length grants + length (filter hasField grants) /\
    tablesOf (subsectionsFrom index grants)
    = map (fun g => {| tableWidth := 100; columnWidths := [2800; 6560]%N;
                       rows := rowsOf g |})
          (filter hasField grants).
Proof.
  induction grants as [|g more IH]; intros index; [split; reflexivity|].
  cbn [subsectionsFrom filter]. destruct (IH (S index)) as [IL IT].
  rewrite length_app, tablesOf_app, IL, IT.
  unfold subsection, attributeTable. fold (hasField g).
  destruct (hasField g); cbn [app length tablesOf map]; split;
    try reflexivity; lia.
Qed.

(** X7: createGrantSections emits two blocks for each record and a table more
    for each record with a non-empty field; every table has the width 100
    percent, the two columns 2800 and 6560, and one to three rows, each of
    exactly two cells, 2800 and 6560 wide. *)
Theorem createGrantSections_layout (grants : list GrantRecord) :
  length (createGrantSections grants)
  = 2 * length grants + length (filter hasField grants) /\
  length (tablesOf (createGrantSections grants)) = length (filter hasField grants) /\
  Forall wellFormedTable (tablesOf (createGrantSections grants)).
Proof.
  unfold createGrantSections. rewrite forEachGrant_subsections. cbn [app].
  destruct (subsectionsFrom_layout grants 0) as [L T].
  split; [exact L|]. rewrite T. split; [apply length_map|].
  apply Forall_forall. intros t Ht. apply in_map_iff in Ht.
  destruct Ht as [g [E Hg]]. subst t. apply filter_In in Hg.
  destruct Hg as [_ Hf]. unfold wellFormedTable.
  cbn [rows columnWidths tableWidth].
  split; [reflexivity|]. split; [reflexivity|].
  split; [apply length_rowsOf; exact Hf | apply rowsOf_widths].
Qed.

(** ** The outline of the report *)

Lemma bulletsOf_parameters (ps : list ContextParameter) :
  map BlockParagraph (bulletsOf (map parameterItem ps)) = map parameterItem ps.
Proof.
  induction ps as [|p ps IH]; [reflexivity|].
  cbn [map bulletsOf parameterItem numbering]. rewrite IH. reflexivity.
Qed.

Lemma bulletsOf_subsections (grants : list GrantRecord) :
  forall index, bulletsOf (subsectionsFrom index grants) = [].
Proof.
  induction grants as [|g more IH]; intros index; [reflexivity|].
  cbn [subsectionsFrom]. rewrite bulletsOf_app, IH, app_nil_r.
  unfold subsection, attributeTable.
  destruct (truthy (organization g) || truthy (amount g) || truthy (deadline g));
    reflexivity.
Qed.

Lemma bulletsOf_searchParameters (data : ReportData) :
  map BlockParagraph (bulletsOf (searchParameters data))
  = map parameterItem (parametersOf data).
Proof.
  unfold searchParameters, hasParameters, parametersOf.
  destruct (contextParameters data) as [[|p ps]|]; try reflexivity.
  cbn [Nat.ltb Nat.leb length].
  rewrite !bulletsOf_app. cbn [bulletsOf headingParagraph numbering app].
  rewrite app_nil_r. apply bulletsOf_parameters.
Qed.

Lemma bulletsOf_organizationProfile (data : ReportData) :
  bulletsOf (organizationProfile data) = [].
Proof.
  unfold organizationProfile. destruct (truthy (orgDescription data)); reflexivity.
Qed.

Lemma paragraphText_parameterItem (ps : list ContextParameter) :
  forall bs,
    map BlockParagraph bs = map parameterItem ps ->
    map paragraphText bs
    = map (fun p => label p ++ js ": " ++ paramDescription p) ps.
Proof.
  induction ps as [|p ps IH]; intros bs H; destruct bs as [|b bs];
    try discriminate; [reflexivity|].
  cbn [map] in *. inversion H; subst b. rewrite (IH bs) by assumption.
  unfold paragraphText. cbn. rewrite app_nil_r, <- app_assoc. reflexivity.
Qed.

(** X8: the document has one level-1 heading, its title; its level-2 headings
    are "Organization Profile" and "Search Parameters" when present and,
    always and last, "Grant Opportunities"; its level-3 headings are those
    of the records, one for each section of the text that is long enough. *)
Theorem report_outline
    (toLocaleDateString : jsstring -> jsstring) (data : ReportData) :
  exists doc grants,
    reportDocument toLocaleDateString data = Ok doc /\
    parseGrantText (text data) = Ok grants /\
    headingTexts HEADING_1 (sectionChildren doc) = [js "Grant Prospecting Report"] /\
    headingTexts HEADING_2 (sectionChildren doc)
    = (if truthy (orgDescription data) then [js "Organization Profile"] else [])
      ++ (if hasParameters data then [js "Search Parameters"] else [])
      ++ [js "Grant Opportunities"] /\
    headingTexts HEADING_3 (sectionChildren doc) = headingsFrom 0 grants /\
    length (headingTexts HEADING_3 (sectionChildren doc))
    = length (filter longEnough (split sectionSeparator (text data))).
Proof.
  unfold reportDocument. rewrite parseGrantText_records. cbn [bind].
  do 2 eexists. split; [reflexivity|]. split; [reflexivity|].
  cbn [sectionChildren].
  set (grants := map recordOf _).
  assert (HO : forall h, headingTexts h (organizationProfile data) =
                 if sameLevel h HEADING_2
                 then headingTexts HEADING_2 (organizationProfile data) else []).
  { intros h. unfold organizationProfile.
    destruct (truthy (orgDescription data)); destruct h; reflexivity. }
  assert (HP : forall ps h, sameLevel h HEADING_2 = false ->
                 headingTexts h (map parameterItem ps) = []).
  { induction ps as [|p ps IH]; intros h Hh; [reflexivity | exact (IH h Hh)]. }
  assert (HS : forall h, sameLevel h HEADING_2 = false ->
                 headingTexts h (searchParameters data) = []).
  { intros h Hh. unfold searchParameters. destruct (hasParameters data);
      [|reflexivity].
    rewrite !headingTexts_app, (HP _ h Hh). destruct h; try discriminate; reflexivity. }
  unfold createGrantSections. rewrite forEachGrant_subsections. cbn [app].
  repeat split.
  - cbn [headingTexts heading headingParagraph sameLevel].
    rewrite !headingTexts_app, HO, HS by reflexivity.
    cbn [sameLevel app headingTexts heading headingParagraph].
    rewrite (headingTexts_subsections HEADING_1 grants 0). reflexivity.
  - cbn [headingTexts heading headingParagraph sameLevel].
    rewrite !headingTexts_app, headingTexts_organizationProfile,
      headingTexts_searchParameters.
    cbn [headingTexts heading headingParagraph sameLevel].
    rewrite (headingTexts_subsections HEADING_2 grants 0). cbn [sameLevel].
    reflexivity.
  - cbn [headingTexts heading headingParagraph sameLevel].
    rewrite !headingTexts_app, HO, HS by reflexivity.
    cbn [sameLevel app headingTexts heading headingParagraph].
    apply (headingTexts_subsections HEADING_3 grants 0).
  - cbn [headingTexts heading headingParagraph sameLevel].
    rewrite !headingTexts_app, HO, HS by reflexivity.
    cbn [sameLevel app headingTexts heading headingParagraph].
    rewrite (headingTexts_subsections HEADING_3 grants 0). cbn [sameLevel].
    rewrite length_headingsFrom. unfold grants. apply length_map.
Qed.

(** X9: the list items of the document are the context parameters, one item
    for each in the order of the array, reading the label, a colon and a
    space, then the description; nothing else in the document is a list
    item. *)
Theorem report_list_items
    (toLocaleDateString : jsstring -> jsstring) (data : ReportData) :
  exists doc,
    reportDocument toLocaleDateString data = Ok doc /\
    map BlockParagraph (bulletsOf (sectionChildren doc))
    = map parameterItem (parametersOf data) /\
    map paragraphText (bulletsOf (sectionChildren doc))
    = map (fun p => label p ++ js ": " ++ paramDescription p) (parametersOf data).
Proof.
  unfold reportDocument. rewrite parseGrantText_records. cbn [bind].
  eexists. split; [reflexivity|]. cbn [sectionChildren].
  match goal with
  | |- map BlockParagraph (bulletsOf ?bs) = _ /\ _ =>
      assert (E : map BlockParagraph (bulletsOf bs)
                  = map parameterItem (parametersOf data))
  end.
  { cbn [app bulletsOf headingParagraph numbering].
    rewrite !bulletsOf_app, bulletsOf_organizationProfile.
    unfold createGrantSections. rewrite forEachGrant_subsections.
    cbn [app bulletsOf headingParagraph numbering].
    rewrite bulletsOf_subsections, app_nil_r. apply bulletsOf_searchParameters. }
  split; [exact E|]. apply paragraphText_parameterItem. exact E.
Qed.

(** ** The headings of the grants differ *)

Lemma digitsOf_digits (d : Decimal.uint) : forallb isDigit (digitsOf d) = true.
Proof. induction d; cbn [digitsOf forallb]; try rewrite IHd; reflexivity. Qed.

Lemma digitsOf_inj (d1 : Decimal.uint) :
  forall d2, digitsOf d1 = digitsOf d2 -> d1 = d2.
Proof.
  induction d1; intros d2 H; destruct d2; cbn [digitsOf] in H;
    try discriminate; try reflexivity;
    injection H as H; f_equal; apply IHd1; exact H.
Qed.

(** Two runs of digits, each followed by a full stop, that start equal
    texts are the same run. *)
Lemma digits_dot_prefix (d1 : jsstring) :
  forall d2 r1 r2,
    forallb isDigit d1 = true -> forallb isDigit d2 = true ->
    d1 ++ 46%N :: r1 = d2 ++ 46%N :: r2 -> d1 = d2.
Proof.
  induction d1 as [|a d1 IH]; intros d2 r1 r2 H1 H2 E; destruct d2 as [|b d2];
    cbn [app forallb] in *.
  - reflexivity.
  - injection E as E _. subst b. discriminate.
  - injection E as E _. subst a. discriminate.
  - injection E as Ea E. subst b.
    apply andb_prop in H1, H2. f_equal. apply (IH d2 r1 r2); tauto.
Qed.

Lemma grantHeadingText_index (i j : nat) (g g' : GrantRecord) :
  grantHeadingText i g = grantHeadingText j g' -> i = j.
Proof.
  unfold grantHeadingText, numberToString. intros E.
  change (js ". ") with [46%N; 32%N] in E. cbn [app] in E.
  apply digits_dot_prefix in E; try apply digitsOf_digits.
  apply digitsOf_inj, DecimalNat.Unsigned.to_uint_inj in E. lia.
Qed.

Lemma headingsFrom_In (grants : list GrantRecord) :
  forall index h,
    In h (headingsFrom index grants) ->
    exists j g, index <= j /\ h = grantHeadingText j g.
Proof.
  induction grants as [|g more IH]; intros index h H; [destruct H|].
  cbn [headingsFrom] in H. destruct H as [H|H].
  - exists index, g. split; [lia | symmetry; exact H].
  - destruct (IH _ _ H) as [j [g' [Hj E]]]. exists j, g'. split; [lia | exact E].
Qed.

Lemma headingsFrom_NoDup (grants : list GrantRecord) :
  forall index, NoDup (headingsFrom index grants).
Proof.
  induction grants as [|g more IH]; intros index; cbn [headingsFrom];
    constructor; [|apply IH].
  intros H. apply headingsFrom_In in H. destruct H as [j [g' [Hj E]]].
  apply grantHeadingText_index in E. lia.
Qed.

(** X10: no two grant headings of a report read the same: each starts with its
    own number and a period. *)
Theorem grant_headings_distinct (grants : list GrantRecord) :
  NoDup (headingTexts HEADING_3 (createGrantSections grants)).
Proof.
  unfold createGrantSections. rewrite forEachGrant_subsections. cbn [app].
  rewrite (headingTexts_subsections HEADING_3 grants 0). cbn [sameLevel].
  apply headingsFrom_NoDup.
Qed.

End Host.

(** ** Instances on concrete inputs *)

(** A text of five units gives no record. *)
Lemma parse_keeps_sections_over_fifty_witness :
  exists grants,
    parseGrantText plainUpper (js "short") = Ok grants /\ grants = [].
Proof.
  destruct (parse_keeps_sections_over_fifty plainUpper (js "short"))
    as [grants [E [H _]]].
  exists grants. split; [exact E|]. apply H. vm_compute. lia.
Defined.

(** C2 as the specification words it fails on a section of exactly fifty
    units: the section is a candidate, its trimmed length is 50, and the
    parser returns no record. *)
Lemma parse_drops_section_of_fifty : ~ spec_retained plainUpper fiftyUnits.
Proof.
  intros H. destruct (H fiftyUnits) as [grants [E Hin]].
  - vm_compute. left. reflexivity.
  - vm_compute. lia.
  - vm_compute in E. inversion E; subst grants. destruct Hin.
Qed.

(** C4 as the specification words it fails on a record of the parser whose
    organization is the empty string: the source emits no table for it, the
    wording asks for a table with one row. *)
Lemma createGrantSections_empty_field_no_row :
  exists g,
    parseGrantText plainUpper blankOrganization = Ok [g] /\
    organization g = Some [] /\
    createGrantSections [g] <> spec_subsectionsFrom 0 [g].
Proof.
  eexists. split; [vm_compute; reflexivity|].
  split; [vm_compute; reflexivity|].
  intros H. vm_compute in H. discriminate H.
Qed.


(** The example of C1 followed by a boundary and a second grant. *)
Lemma parse_order_and_concatenation_witness :
  exists ra rb,
    parseGrantText plainUpper c1_input = Ok ra /\
    parseGrantText plainUpper markerOnlyTitle = Ok rb /\
    parseGrantText plainUpper (c1_input ++ [NL; NL] ++ markerOnlyTitle)
    = Ok (ra ++ rb).
Proof.
  apply (proj2 (parse_order_and_concatenation plainUpper)). reflexivity.
Defined.

(** The organization of the example of C1 is the rest of its first labelled
    line. *)
Lemma extract_first_labelled_line_witness :
  extractOrganization plainUpper c1_input = Ok (Some (js "XYZ Corp")).
Proof.
  apply (proj1 (proj2 (extract_first_labelled_line plainUpper c1_input))).
  - vm_compute. reflexivity.
  - discriminate.
Defined.

(** C7 as the specification words it fails on a retained section with a
    label whose line ends after the colon: the section is kept as the one
    record of its text, the rest of the label's line is empty, and the
    source takes the next line as the organization. *)
Lemma extract_label_then_newline :
  exists g,
    parseGrantText plainUpper labelThenNewlineSection = Ok [g] /\
    raw g = labelThenNewlineSection /\
    longEnough (raw g) = true /\
    spec_extractField plainUpper organizationLabels (raw g) = Some [] /\
    organization g = Some (js "Amount: $5,000") /\
    extractOrganization plainUpper (raw g) = Ok (organization g) /\
    organization g <> spec_extractField plainUpper organizationLabels (raw g).
Proof.
  eexists. split; [vm_compute; reflexivity|].
  repeat split; try (vm_compute; reflexivity).
  intros H. vm_compute in H. discriminate H.
Qed.

(** The second grant of [threeGrants] parses on its own to its record. *)
Lemma reparse_raw_gives_record_witness :
  parseGrantText plainUpper
    (nth 1 (split plainUpper sectionSeparator threeGrants) [])
  = Ok [recordOf plainUpper (nth 1 (split plainUpper sectionSeparator threeGrants) [])].
Proof.
  apply (proj2 (@reparse_raw_gives_record plainUpper threeGrants
                  (map (recordOf plainUpper)
                       (filter longEnough (split plainUpper sectionSeparator threeGrants)))
                  (recordOf plainUpper
                     (nth 1 (split plainUpper sectionSeparator threeGrants) []))
                  ltac:(vm_compute; reflexivity)
                  ltac:(vm_compute; right; left; reflexivity))).
Defined.

(** The example of C1 holds no boundary and is one section. *)
Lemma split_without_boundary_witness :
  split plainUpper sectionSeparator c1_input = [c1_input].
Proof.
  apply (proj1 (@split_without_boundary plainUpper c1_input
                  ltac:(vm_compute; reflexivity))).
Defined.

(** After a label whose line ends at the colon, the organization is the
    next line. *)
Lemma extract_first_visible_line_witness :
  extractOrganization plainUpper labelThenNewline
  = Ok (Some (firstVisibleLine ([NL] ++ js "Amount: $5,000"))).
Proof.
  apply (proj1 (@extract_first_visible_line plainUpper labelThenNewline
                  ([NL] ++ js "Amount: $5,000"))).
  - vm_compute. reflexivity.
  - vm_compute. reflexivity.
Defined.

(** ** The parser does not depend on the host's Unicode tables *)

Section TwoHosts.

Variables upper1 upper2 : code -> code.

Lemma Canonicalize_ascii (u : code -> code) (ic : bool) (c : code) :
  (c <? 128)%N = true ->
  Canonicalize u ic c = Canonicalize plainUpper ic c /\
  (Canonicalize u ic c <? 128)%N = true.
Proof.
  intros Hc. unfold Canonicalize, toUpperCase. rewrite Hc.
  destruct ic; [|split; [reflexivity | exact Hc]].
  apply N.ltb_lt in Hc.
  replace (128 <=? c)%N with false by (symmetry; apply N.leb_gt; lia).
  cbn [andb]. split; [reflexivity|].
  destruct ((97 <=? c) && (c <=? 122))%N; apply N.ltb_lt; lia.
Qed.

Lemma Canonicalize_outside (u : code -> code) (ic : bool) (x : code) :
  (x <? 128)%N = false -> (Canonicalize u ic x <? 128)%N = false.
Proof.
  intros Hx. unfold Canonicalize, toUpperCase. rewrite Hx.
  destruct ic; [|exact Hx].
  replace (128 <=? x)%N with true
    by (symmetry; apply N.leb_le; apply N.ltb_ge in Hx; lia).
  cbn [andb]. destruct (u x <? 128)%N eqn:E; [exact Hx | exact E].
Qed.

(** An ASCII pattern character matches the same units on every host, and
    none outside ASCII. *)
Lemma charMatches_host (ic : bool) (c x : code) :
  (c <? 128)%N = true ->
  charMatches upper1 ic c x = charMatches upper2 ic c x.
Proof.
  intros Hc. unfold charMatches.
  destruct (Canonicalize_ascii upper1 ic c Hc) as [E1 L1].
  destruct (Canonicalize_ascii upper2 ic c Hc) as [E2 L2].
  destruct (x <? 128)%N eqn:Hx.
  - destruct (Canonicalize_ascii upper1 ic x Hx) as [X1 _].
    destruct (Canonicalize_ascii upper2 ic x Hx) as [X2 _].
    rewrite E1, E2, X1, X2. reflexivity.
  - pose proof (Canonicalize_outside upper1 ic x Hx) as O1.
    pose proof (Canonicalize_outside upper2 ic x Hx) as O2.
    apply N.ltb_lt in L1, L2. apply N.ltb_ge in O1, O2.
    replace (Canonicalize upper1 ic c =? Canonicalize upper1 ic x)%N with false
      by (symmetry; apply N.eqb_neq; lia).
    symmetry. apply N.eqb_neq. lia.
Qed.

Lemma starLoop_ext (p : code -> bool)
    (k1 k2 : nat -> jsstring -> option MatchResult) (rest : jsstring) :
  (forall n r, k1 n r = k2 n r) ->
  forall n, starLoop p k1 n rest = starLoop p k2 n rest.
Proof.
  intros Hk. induction rest as [|x rest IH]; intros n; cbn [starLoop]; [apply Hk|].
  rewrite IH, Hk. reflexivity.
Qed.

Lemma matcher_host (ic : bool) (r : Regex) :
  asciiRegex r = true ->
  forall (k1 k2 : Continuation),
    (forall n rest cap, k1 n rest cap = k2 n rest cap) ->
    forall n rest cap,
      matcher upper1 ic r k1 n rest cap = matcher upper2 ic r k2 n rest cap.
Proof.
  induction r as [|c|cl|r1 IH1 r2 IH2|r1 IH1 r2 IH2|cl|r1 IH1|r1 IH1|];
    intros Ha k1 k2 Hk n rest cap; cbn [matcher asciiRegex] in *.
  - apply Hk.
  - destruct rest as [|x rest]; [reflexivity|].
    rewrite (charMatches_host ic c x Ha), Hk. reflexivity.
  - destruct rest as [|x rest]; [reflexivity|]. rewrite Hk. reflexivity.
  - apply andb_prop in Ha. destruct Ha as [Ha1 Ha2].
    apply IH1; [exact Ha1|]. intros. apply IH2; [exact Ha2 | exact Hk].
  - apply andb_prop in Ha. destruct Ha as [Ha1 Ha2].
    rewrite (IH1 Ha1 k1 k2 Hk), (IH2 Ha2 k1 k2 Hk). reflexivity.
  - apply starLoop_ext. intros. apply Hk.
  - apply IH1; [exact Ha|]. intros. apply Hk.
  - rewrite (IH1 Ha (fun n' _ cap' => Some (n', cap')) (fun n' _ cap' => Some (n', cap')))
      by reflexivity.
    destruct (matcher upper2 ic r1 _ n rest cap) as [[e cap']|]; [apply Hk | reflexivity].
  - rewrite Hk. reflexivity.
Qed.

Lemma matchAt_host (re : RegExp) (n : nat) (rest : jsstring) :
  asciiRegex (source re) = true ->
  matchAt upper1 re n rest = matchAt upper2 re n rest.
Proof. intros Ha. unfold matchAt. apply matcher_host; [exact Ha | reflexivity]. Qed.

Lemma execFrom_host (re : RegExp) (rest : jsstring) :
  asciiRegex (source re) = true ->
  forall n, execFrom upper1 re n rest = execFrom upper2 re n rest.
Proof.
  intros Ha. induction rest as [|x rest IH]; intros n; cbn [execFrom];
    rewrite (matchAt_host re n _ Ha); [reflexivity|].
  rewrite IH. reflexivity.
Qed.

Lemma replaceWithEmpty_host (re : RegExp) (s : jsstring) :
  asciiRegex (source re) = true ->
  replaceWithEmpty upper1 re s = replaceWithEmpty upper2 re s.
Proof.
  intros Ha. unfold replaceWithEmpty, exec. rewrite (execFrom_host re s Ha).
  reflexivity.
Qed.

Lemma splitLoop_host (re : RegExp) (rest : jsstring) :
  asciiRegex (source re) = true ->
  forall q skip acc,
    splitLoop upper1 re q rest skip acc = splitLoop upper2 re q rest skip acc.
Proof.
  intros Ha. induction rest as [|c rest IH]; intros q skip acc; cbn [splitLoop];
    [reflexivity|].
  destruct skip; [|apply IH].
  rewrite (matchAt_host re q _ Ha).
  destruct (matchAt upper2 re q (c :: rest)) as [[e cap]|]; [|apply IH].
  destruct (e =? q); [destruct acc|]; rewrite IH; reflexivity.
Qed.

Lemma split_host (re : RegExp) (s : jsstring) :
  asciiRegex (source re) = true ->
  split upper1 re s = split upper2 re s.
Proof.
  intros Ha. unfold split. destruct s as [|c s].
  - rewrite (matchAt_host re 0 [] Ha). reflexivity.
  - apply splitLoop_host. exact Ha.
Qed.

Lemma extractField_host (l1 l2 l3 : string) (text : jsstring) :
  asciiRegex (source (labelledRe l1 l2 l3)) = true ->
  extractField upper1 (labelledRe l1 l2 l3) text
  = extractField upper2 (labelledRe l1 l2 l3) text.
Proof.
  intros Ha. unfold extractField, exec. rewrite (execFrom_host _ text Ha).
  reflexivity.
Qed.

Lemma extractTitle_host (firstLine : option jsstring) :
  extractTitle upper1 firstLine = extractTitle upper2 firstLine.
Proof.
  destruct firstLine as [l|]; [|reflexivity]. unfold extractTitle.
  rewrite (replaceWithEmpty_host numberingRe l) by reflexivity.
  rewrite (replaceWithEmpty_host grantPrefixRe) by reflexivity.
  rewrite (replaceWithEmpty_host foundationPrefixRe) by reflexivity.
  reflexivity.
Qed.

Lemma parseSections_host (sections : list jsstring) :
  forall grants,
    parseSections upper1 sections grants = parseSections upper2 sections grants.
Proof.
  induction sections as [|section more IH]; intros grants; cbn [parseSections];
    [reflexivity|].
  destruct (50 <? length (trim section)); [|apply IH].
  destruct (0 <? length (filter nonBlank (splitOn NL section))); [|apply IH].
  rewrite extractTitle_host.
  unfold extractOrganization, extractAmount, extractDeadline,
    organizationRe, amountRe, deadlineRe.
  rewrite (extractField_host "Foundation" "Organization" "Funder") by reflexivity.
  rewrite (extractField_host "Amount" "Funding" "Grant Size") by reflexivity.
  rewrite (extractField_host "Deadline" "Due" "Application Due") by reflexivity.
  destruct (extractTitle upper2 _) as [t|e]; [|reflexivity]. cbn [bind].
  destruct (extractField upper2 _ section) as [o|e]; [|reflexivity]. cbn [bind].
  destruct (extractField upper2 _ section) as [a|e]; [|reflexivity]. cbn [bind].
  destruct (extractField upper2 _ section) as [d|e]; [|reflexivity]. cbn [bind].
  apply IH.
Qed.

(** X11: the patterns of the source have ASCII characters only, and such a
    character matches the same units whatever the upper-case mapping of the
    host does outside ASCII: the records of a text, and the document built
    from them, are the same on every host. *)
Theorem parse_same_on_every_host :
  (forall text, parseGrantText upper1 text = parseGrantText upper2 text) /\
  (forall toLocaleDateString data,
     reportDocument upper1 toLocaleDateString data
     = reportDocument upper2 toLocaleDateString data).
Proof.
  assert (P : forall text, parseGrantText upper1 text = parseGrantText upper2 text).
  { intros text. unfold parseGrantText.
    rewrite (split_host sectionSeparator text) by reflexivity.
    apply parseSections_host. }
  split; [exact P|]. intros tz data. unfold reportDocument. rewrite P. reflexivity.
Qed.

End TwoHosts.
